(** * Certipy: certificate store and signing workflow

    A shallow embedding of [certipy/certipy.py].  The class [Certipy] keeps
    a dictionary of [KeyCertPair] records and a serial counter; its methods
    read and write files, print messages and call the pyOpenSSL binding.

    The embedding is typed the way the docstrings type the program: names
    and paths are strings, the serial is an integer.  The methods are
    functions in a small state-and-exception monad over a [World] that
    holds the object, the file system, the lines printed so far and the
    certificates signed so far.  The pyOpenSSL objects are symbolic terms;
    which calls of the binding raise is left to an oracle ([OpenSSL]). *)

From Stdlib Require Import ZArith NArith String Ascii List Lia.
From stdpp Require Import gmap strings list fin_maps.

Set Warnings "-register-all".

Local Open Scope Z_scope.
Local Open Scope string_scope.
Local Open Scope list_scope.

(** ** Python values used by the program *)

(** Exceptions the program can meet.  The payload of an exception is never
    inspected by the program, only its class. *)
Inductive exn :=
  | KeyError
  | AttributeError
  | TypeError
  | ValueError
  | FileNotFoundError
  | FileExistsError
  | IsADirectoryError
  | NotADirectoryError
  | PermissionError
  | OpenSSLError.

(** The outcome of a call: a value, an exception, or [Untyped] when the run
    would store a value the typed embedding cannot hold (a serial that is
    not an integer, a record field that is not a string). *)
Inductive result (A : Type) :=
  | Val (a : A)
  | Raise (e : exn)
  | Untyped.
Arguments Val {A} a.
Arguments Raise {A} e.
Arguments Untyped {A}.

(** [KeyCertPair = namedtuple("KeyCertPair", "name dir_name key_file cert_file ca_file")] *)
Record KeyCertPair := mkKeyCertPair {
  name : string;
  dir_name : string;
  key_file : string;
  cert_file : string;
  ca_file : string
}.

(** A parsed JSON document, as [json.load] returns it; [JObj] lists the
    items of the resulting dict in iteration order. *)
Inductive json :=
  | JNull
  | JBool (b : bool)
  | JInt (z : Z)
  | JFloat (literal : string)
  | JStr (s : string)
  | JArr (items : list json)
  | JObj (items : list (string * json)).

(** [d[k]] on the items of a dict. *)
Fixpoint dict_get (k : string) (items : list (string * json)) : option json :=
  match items with
  | [] => None
  | (k', v) :: rest => if decide (k' = k) then Some v else dict_get k rest
  end.

(** ** The pyOpenSSL objects, symbolically *)

(** [crypto.PKey]: the algorithm, the size and the identity of the key
    material; [only_public] is set on the object [get_pubkey] returns. *)
Record PKey := mkPKey {
  key_type : Z;
  key_bits : Z;
  key_id : nat;
  only_public : bool
}.

Definition TYPE_RSA : Z := 6.
Definition TYPE_DSA : Z := 116.

Definition public_part (k : PKey) : PKey :=
  {| key_type := key_type k; key_bits := key_bits k; key_id := key_id k;
     only_public := true |}.

(** [crypto.X509Name]: the attributes of a distinguished name, in order. *)
Definition X509Name := list (string * string).

(** A signature: which key made it and with which digest. *)
Record Signature := mkSignature {
  sig_key : nat;
  sig_digest : string
}.

(** [crypto.X509Req] *)
Record X509Req := mkX509Req {
  req_subject : X509Name;
  req_pubkey : option PKey;
  req_signature : option Signature
}.

(** [crypto.X509] and [crypto.X509Extension].  An extension built with
    [subject=cert] or [issuer=cert] keeps the certificate as it was when the
    extension was built. *)
Inductive X509 := mkX509 {
  serial_number : Z;
  notBefore : option Z;
  notAfter : option Z;
  issuer : X509Name;
  subject : X509Name;
  pubkey : option PKey;
  extensions : list X509Extension;
  signature : option Signature
}
with X509Extension := mkX509Extension {
  type_name : string;
  critical : bool;
  value : string;
  ext_subject : option X509;
  ext_issuer : option X509
}.

(** ** The file system *)

(** What a file holds.  A file whose text is a JSON document is [JsonDoc];
    the PEM text of a key or of a certificate is [PemKey] or [PemCert];
    anything else is [Raw]. *)
Inductive content :=
  | Raw (text : string)
  | JsonDoc (j : json)
  | PemKey (k : PKey)
  | PemCert (c : X509).

Inductive node :=
  | Dir (mode : N)
  | File (mode : N) (data : content).

(** Paths are the strings the program formats; the empty path stands for
    the working directory. *)
Abbreviation FS := (gmap string node).

(** ** The object and the world around it *)

(** The fields [__init__] sets. *)
Record Certipy := mkCertipy {
  certs : gmap string KeyCertPair;
  store_dir : string;
  record_file : string;
  serial : Z
}.

(** One argument of [print]: a string, or an exception shown with [str]. *)
Inductive parg :=
  | PStr (s : string)
  | PExn (e : exn).

Record World := mkWorld {
  self : Certipy;
  fs : FS;
  (** the lines printed so far, oldest first *)
  stdout : list (list parg);
  (** history: the certificates [sign] has returned so far, oldest first *)
  issued : list X509;
  (** the number of keys generated so far, the identity of the next one *)
  next_key : nat;
  (** the wall clock, in seconds *)
  clock : Z
}.

Definition set_self (s : Certipy) (w : World) : World :=
  {| self := s; fs := fs w; stdout := stdout w; issued := issued w;
     next_key := next_key w; clock := clock w |}.

Definition set_fs (f : FS) (w : World) : World :=
  {| self := self w; fs := f; stdout := stdout w; issued := issued w;
     next_key := next_key w; clock := clock w |}.

Definition set_certs (c : gmap string KeyCertPair) (s : Certipy) : Certipy :=
  {| certs := c; store_dir := store_dir s; record_file := record_file s;
     serial := serial s |}.

Definition set_serial (z : Z) (s : Certipy) : Certipy :=
  {| certs := certs s; store_dir := store_dir s; record_file := record_file s;
     serial := z |}.

(** ** The monad of method bodies *)

Definition M (A : Type) : Type := World -> result A * World.

Definition ret {A} (a : A) : M A := fun w => (Val a, w).

Definition raise {A} (e : exn) : M A := fun w => (Raise e, w).

Definition untyped {A} : M A := fun w => (Untyped, w).

Definition bind {A B} (m : M A) (f : A -> M B) : M B :=
  fun w =>
    match m w with
    | (Val a, w') => f a w'
    | (Raise e, w') => (Raise e, w')
    | (Untyped, w') => (Untyped, w')
    end.

(** [try: m  except ...: h]; [h e] is [None] when no clause catches [e].
    What [m] did before it raised stays done. *)
Definition try_except {A} (m : M A) (h : exn -> option (M A)) : M A :=
  fun w =>
    match m w with
    | (Raise e, w') =>
        match h e with
        | Some handler => handler w'
        | None => (Raise e, w')
        end
    | r => r
    end.

(** A pure computation that may raise, run inside a method. *)
Definition lift {A} (r : result A) : M A := fun w => (r, w).

Notation "x <- m ;; k" := (bind m (fun x => k))
  (at level 100, m at next level, right associativity).
Notation "m ;;; k" := (bind m (fun _ => k))
  (at level 100, right associativity).

Definition get_self : M Certipy := fun w => (Val (self w), w).
Definition put_self (s : Certipy) : M unit := fun w => (Val tt, set_self s w).
Definition get_fs : M FS := fun w => (Val (fs w), w).
Definition put_fs (f : FS) : M unit := fun w => (Val tt, set_fs f w).

(** [print(a, b, ...)] *)
Definition print (args : list parg) : M unit :=
  fun w =>
    (Val tt,
     {| self := self w; fs := fs w; stdout := stdout w ++ [args];
        issued := issued w; next_key := next_key w; clock := clock w |}).

(** ** Paths and the operating system *)

(** ["{}/{}".format(a, b)] *)
Definition slash (a b : string) : string := a +:+ "/" +:+ b.

Definition is_slash (c : ascii) : bool := Ascii.eqb c "/"%char.

Fixpoint has_slash (p : string) : bool :=
  match p with
  | EmptyString => false
  | String c r => is_slash c || has_slash r
  end.

Fixpoint all_slashes (p : string) : bool :=
  match p with
  | EmptyString => true
  | String c r => is_slash c && all_slashes r
  end.

(** The text up to and including the last slash. *)
Fixpoint upto_last_slash (p : string) : string :=
  match p with
  | EmptyString => EmptyString
  | String c r =>
      if has_slash r then String c (upto_last_slash r)
      else if is_slash c then String c EmptyString
      else EmptyString
  end.

Fixpoint rstrip_slash (p : string) : string :=
  match p with
  | EmptyString => EmptyString
  | String c r =>
      match rstrip_slash r with
      | EmptyString => if is_slash c then EmptyString else String c EmptyString
      | r' => String c r'
      end
  end.

(** [os.path.dirname] *)
Definition dirname (p : string) : string :=
  let head := upto_last_slash p in
  if all_slashes head then head else rstrip_slash head.

(** Every prefix of [rest] that stops before a slash or at the end, each
    put after [seen]. *)
Fixpoint path_prefixes (seen rest : string) : list string :=
  match rest with
  | EmptyString => [seen]
  | String c r =>
      if is_slash c
      then seen :: path_prefixes (seen +:+ "/") r
      else path_prefixes (seen +:+ String c EmptyString) r
  end.

Fixpoint ends_with_slash (p : string) : bool :=
  match p with
  | EmptyString => false
  | String c EmptyString => is_slash c
  | String _ r => ends_with_slash r
  end.

(** The directories [os.makedirs(p)] visits, outermost first. *)
Definition dir_chain (p : string) : list string :=
  filter (fun d => d ≠ "" ∧ ends_with_slash d = false) (path_prefixes "" p).

(** Octal file modes: [oct 7 5 5] is [0o755]. *)
Definition oct (u g o : N) : N := (u * 64 + g * 8 + o)%N.

Definition umask : N := oct 0 2 2.

Definition writable (mode : N) : bool := N.testbit mode 7.
Definition readable (mode : N) : bool := N.testbit mode 8.

(** The error of reaching a path that is not there. *)
Definition missing (f : FS) (p : string) : exn :=
  match f !! dirname p with
  | Some (File _ _) => NotADirectoryError
  | _ => FileNotFoundError
  end.

(** [open(p, 'w')]: the file is created or emptied. *)
Definition open_w (p : string) : M unit :=
  f <- get_fs ;;
  match f !! p with
  | Some (Dir _) => raise IsADirectoryError
  | Some (File m _) =>
      if writable m then put_fs (<[p := File m (Raw "")]> f)
      else raise PermissionError
  | None =>
      match f !! dirname p with
      | Some (Dir m) =>
          if writable m then put_fs (<[p := File (N.ldiff (oct 6 6 6) umask) (Raw "")]> f)
          else raise PermissionError
      | Some (File _ _) => raise NotADirectoryError
      | None => raise FileNotFoundError
      end
  end.

(** [fh.write(data)] on a file opened with [open_w]. *)
Definition fh_write (p : string) (data : content) : M unit :=
  f <- get_fs ;;
  match f !! p with
  | Some (File m _) => put_fs (<[p := File m data]> f)
  | _ => ret tt
  end.

(** [open(p)] followed by reading the whole file. *)
Definition open_r (p : string) : M content :=
  f <- get_fs ;;
  match f !! p with
  | Some (Dir _) => raise IsADirectoryError
  | Some (File m data) => if readable m then ret data else raise PermissionError
  | None => raise (missing f p)
  end.

(** [os.mkdir(d, mode)] as [os.makedirs(..., exist_ok=True)] calls it;
    [leaf] tells the last directory of the chain from the ones above it. *)
Definition mkdir_exist_ok (leaf : bool) (d : string) (mode : N) : M unit :=
  f <- get_fs ;;
  match f !! d with
  | Some (Dir _) => ret tt
  | Some (File _ _) => raise (if leaf then FileExistsError else NotADirectoryError)
  | None =>
      match f !! dirname d with
      | Some (Dir m) =>
          if writable m then put_fs (<[d := Dir (N.ldiff mode umask)]> f)
          else raise PermissionError
      | Some (File _ _) => raise NotADirectoryError
      | None => raise FileNotFoundError
      end
  end.

Fixpoint makedirs_chain (chain : list string) (mode : N) : M unit :=
  match chain with
  | [] => ret tt
  | [d] => mkdir_exist_ok true d mode
  | d :: rest => mkdir_exist_ok false d (oct 7 7 7) ;;; makedirs_chain rest mode
  end.

(** [os.makedirs(p, mode=mode, exist_ok=True)] *)
Definition makedirs (p : string) (mode : N) : M unit :=
  makedirs_chain (dir_chain p) mode.

(** [os.chmod(p, mode)] *)
Definition chmod (p : string) (mode : N) : M unit :=
  f <- get_fs ;;
  match f !! p with
  | Some (File _ data) => put_fs (<[p := File mode data]> f)
  | Some (Dir _) => put_fs (<[p := Dir mode]> f)
  | None => raise (missing f p)
  end.

(** ** The store *)

(** [Certipy(store_dir, record_file)] *)
Definition init (store_dir record_file : string) : Certipy :=
  {| certs := ∅; store_dir := store_dir; record_file := record_file; serial := 0 |}.

(** A record as [json.dumps] writes a namedtuple: the array of its fields. *)
Definition info_json (r : KeyCertPair) : json :=
  JArr [JStr (name r); JStr (dir_name r); JStr (key_file r);
        JStr (cert_file r); JStr (ca_file r)].

Definition certs_json (c : gmap string KeyCertPair) : json :=
  JObj (map (fun kv => (kv.1, info_json kv.2)) (map_to_list c)).

Definition store_save : M unit :=
  s <- get_self ;;
  let file_path := slash (store_dir s) (record_file s) in
  try_except
    (open_w file_path ;;;
     let out := JObj [("serial", JInt (serial s));
                      ("cert_info", certs_json (certs s))] in
     fh_write file_path (JsonDoc out))
    (fun e =>
       match e with
       | FileNotFoundError =>
           Some (print [PStr ("Could not open file " +:+ file_path +:+ " for writing.")])
       | _ => None
       end).

(** The one-character strings of a string, as iterating it yields them. *)
Fixpoint chars (s : string) : list string :=
  match s with
  | EmptyString => []
  | String c r => String c EmptyString :: chars r
  end.

(** A field of a record read back from the file: the embedding holds it
    when it is a string. *)
Definition field (j : json) : result string :=
  match j with
  | JStr s => Val s
  | _ => Untyped
  end.

Definition KeyCertPair_of_args (args : list (result string)) : result KeyCertPair :=
  match args with
  | [Val a; Val b; Val c; Val d; Val e] => Val (mkKeyCertPair a b c d e)
  | [_; _; _; _; _] => Untyped
  | _ => Raise TypeError
  end.

(** [KeyCertPair( *info )]: [info] is unpacked by iteration, so a list gives
    its elements, a string its characters and a dict its keys; anything
    else, or a count other than five, is a [TypeError]. *)
Definition KeyCertPair_unpack (info : json) : result KeyCertPair :=
  match info with
  | JArr items => KeyCertPair_of_args (map field items)
  | JStr s => KeyCertPair_of_args (map Val (chars s))
  | JObj items => KeyCertPair_of_args (map (fun kv => Val kv.1) items)
  | JNull | JBool _ | JInt _ | JFloat _ => Raise TypeError
  end.

(** [self.certs[name] = record] *)
Definition set_cert (name : string) (r : KeyCertPair) : M unit :=
  s <- get_self ;;
  put_self (set_certs (<[name := r]> (certs s)) s).

(** [for name, info in cert_info.items(): self.certs[name] = KeyCertPair( *info )] *)
Fixpoint load_items (items : list (string * json)) : M unit :=
  match items with
  | [] => ret tt
  | (name, info) :: rest =>
      r <- lift (KeyCertPair_unpack info) ;;
      set_cert name r ;;;
      load_items rest
  end.

(** The body of the [with] block of [store_load], given what was read. *)
Definition load_document (data : content) : M unit :=
  match data with
  | JsonDoc store =>
      match store with
      | JObj top =>
          match dict_get "serial" top with
          | None => raise KeyError
          | Some (JInt z) =>
              s <- get_self ;;
              put_self (set_serial z s) ;;;
              match dict_get "cert_info" top with
              | None => raise KeyError
              | Some (JObj cert_info) => load_items cert_info
              | Some _ => raise AttributeError
              end
          | Some _ => untyped
          end
      | _ => raise TypeError
      end
  | _ => raise ValueError
  end.

Definition store_load : M unit :=
  s <- get_self ;;
  let file_path := slash (store_dir s) (record_file s) in
  try_except
    (data <- open_r file_path ;;
     load_document data)
    (fun e =>
       match e with
       | FileNotFoundError =>
           Some (print [PStr ("No store file at " +:+ file_path +:+ ". Creating a new one.")] ;;;
                 makedirs (store_dir s) (oct 7 5 5))
       | TypeError => Some (print [PStr "Problems loading store:"; PExn e])
       | ValueError => Some (print [PStr "Problems loading store:"; PExn e])
       | _ => None
       end).

(** [self.certs[name]] *)
Definition certs_item (name : string) : M KeyCertPair :=
  s <- get_self ;;
  match certs s !! name with
  | Some r => ret r
  | None => raise KeyError
  end.

(** [store_get] returns the record, or prints and returns [None]. *)
Definition store_get (name : string) : M (option KeyCertPair) :=
  try_except
    (r <- certs_item name ;; ret (Some r))
    (fun e =>
       match e with
       | KeyError =>
           Some (print [PStr ("No certificates found with name " +:+ name)] ;;;
                 ret None)
       | _ => None
       end).

(** A string is true when it is not empty. *)
Definition truthy (s : string) : bool :=
  match s with
  | EmptyString => false
  | String _ _ => true
  end.

Definition key_cert_pair_for_name (s : Certipy)
    (name dir_name key_file cert_file ca_file : string) : KeyCertPair :=
  let dir_name := if truthy dir_name then dir_name else slash (store_dir s) name in
  let key_file := if truthy key_file then key_file else dir_name +:+ "/" +:+ name +:+ ".key" in
  let cert_file := if truthy cert_file then cert_file else dir_name +:+ "/" +:+ name +:+ ".crt" in
  let ca_file := if truthy ca_file then ca_file else cert_file in
  mkKeyCertPair name dir_name key_file cert_file ca_file.

Definition store_add (keyCertPair : KeyCertPair) : M unit :=
  set_cert (name keyCertPair) keyCertPair.

(** [del self.certs[name]] *)
Definition del_cert (name : string) : M unit :=
  s <- get_self ;;
  match certs s !! name with
  | Some _ => put_self (set_certs (delete name (certs s)) s)
  | None => raise KeyError
  end.

Definition store_remove (name : string) : M unit :=
  try_except
    (del_cert name)
    (fun e =>
       match e with
       | KeyError => Some (print [PStr ("No certificates found with name " +:+ name)])
       | _ => None
       end).

(** ** The pyOpenSSL binding *)

(** Which calls of the binding raise, and with what: [None] means the call
    goes through.  The program never looks at the reasons, so they are left
    open. *)
Class OpenSSL := {
  (** [PKey.generate_key(type, bits)] *)
  generate_key_error : Z -> Z -> option exn;
  (** [setattr(subj, key, value)] on an [X509Name] *)
  name_attr_error : string -> string -> option exn;
  (** [X509Req.sign(key, digest)] and [X509.sign(key, digest)] *)
  sign_error : PKey -> string -> option exn;
  (** [X509Extension(type_name, critical, value, subject, issuer)] *)
  extension_error :
    string -> bool -> string -> option X509 -> option X509 -> option exn;
  (** [load_privatekey] and [load_certificate] on the text of a file *)
  pem_error : content -> exn
}.

(** The object with a subject: [get_subject()] is called on the issuer,
    which is a certificate for a leaf and the request itself for a CA. *)
Class HasSubject (A : Type) := get_subject : A -> X509Name.

#[export] Instance X509Req_subject : HasSubject X509Req := req_subject.
#[export] Instance X509_subject : HasSubject X509 := subject.

(** [crypto.X509()] *)
Definition X509_new : X509 :=
  {| serial_number := 0; notBefore := None; notAfter := None; issuer := [];
     subject := []; pubkey := None; extensions := []; signature := None |}.

Definition set_serial_number (z : Z) (c : X509) : X509 :=
  {| serial_number := z; notBefore := notBefore c; notAfter := notAfter c;
     issuer := issuer c; subject := subject c; pubkey := pubkey c;
     extensions := extensions c; signature := signature c |}.

Definition gmtime_adj_notBefore (now amount : Z) (c : X509) : X509 :=
  {| serial_number := serial_number c; notBefore := Some (now + amount);
     notAfter := notAfter c; issuer := issuer c; subject := subject c;
     pubkey := pubkey c; extensions := extensions c; signature := signature c |}.

Definition gmtime_adj_notAfter (now amount : Z) (c : X509) : X509 :=
  {| serial_number := serial_number c; notBefore := notBefore c;
     notAfter := Some (now + amount); issuer := issuer c; subject := subject c;
     pubkey := pubkey c; extensions := extensions c; signature := signature c |}.

Definition set_issuer (n : X509Name) (c : X509) : X509 :=
  {| serial_number := serial_number c; notBefore := notBefore c;
     notAfter := notAfter c; issuer := n; subject := subject c;
     pubkey := pubkey c; extensions := extensions c; signature := signature c |}.

Definition set_subject (n : X509Name) (c : X509) : X509 :=
  {| serial_number := serial_number c; notBefore := notBefore c;
     notAfter := notAfter c; issuer := issuer c; subject := n;
     pubkey := pubkey c; extensions := extensions c; signature := signature c |}.

Definition set_pubkey (k : PKey) (c : X509) : X509 :=
  {| serial_number := serial_number c; notBefore := notBefore c;
     notAfter := notAfter c; issuer := issuer c; subject := subject c;
     pubkey := Some (public_part k); extensions := extensions c;
     signature := signature c |}.

Definition add_extensions (es : list X509Extension) (c : X509) : X509 :=
  {| serial_number := serial_number c; notBefore := notBefore c;
     notAfter := notAfter c; issuer := issuer c; subject := subject c;
     pubkey := pubkey c; extensions := extensions c ++ es;
     signature := signature c |}.

Definition set_signature (s : Signature) (c : X509) : X509 :=
  {| serial_number := serial_number c; notBefore := notBefore c;
     notAfter := notAfter c; issuer := issuer c; subject := subject c;
     pubkey := pubkey c; extensions := extensions c; signature := Some s |}.

(** An element of the [extensions] argument of [sign]: an extension, or a
    callable that builds one from the certificate. *)
Inductive ext_arg :=
  | Ext (e : X509Extension)
  | Callable (f : X509 -> result X509Extension).

(** [setattr(subj, key, value)]: an older entry of the attribute goes, the
    new one is put last. *)
Definition name_setattr (subj : X509Name) (key value : string) : X509Name :=
  filter (fun kv => kv.1 ≠ key) subj ++ [(key, value)].

Section Workflow.
Context `{OpenSSL}.

(** [crypto.X509Extension(type_name, critical, value, subject=, issuer=)] *)
Definition X509Extension_new (type_name : string) (critical : bool)
    (value : string) (subject issuer : option X509) : result X509Extension :=
  match extension_error type_name critical value subject issuer with
  | Some e => Raise e
  | None => Val (mkX509Extension type_name critical value subject issuer)
  end.

Definition create_key_pair (cert_type bits : Z) : M PKey :=
  fun w =>
    match generate_key_error cert_type bits with
    | Some e => (Raise e, w)
    | None =>
        (Val {| key_type := cert_type; key_bits := bits;
                key_id := next_key w; only_public := false |},
         {| self := self w; fs := fs w; stdout := stdout w;
            issued := issued w; next_key := S (next_key w);
            clock := clock w |})
    end.

(** [for key, value in name.items(): setattr(subj, key, value)] *)
Fixpoint set_name_items (subj : X509Name) (items : list (string * string))
    : result X509Name :=
  match items with
  | [] => Val subj
  | (key, value) :: rest =>
      match name_attr_error key value with
      | Some e => Raise e
      | None => set_name_items (name_setattr subj key value) rest
      end
  end.

(** [create_request(pkey, digest, **name)]; [name] is the keyword dict. *)
Definition create_request (pkey : PKey) (digest : string)
    (name : list (string * string)) : M X509Req :=
  subj <- lift (set_name_items [] name) ;;
  match sign_error pkey digest with
  | Some e => raise e
  | None =>
      ret {| req_subject := subj;
             req_pubkey := Some (public_part pkey);
             req_signature := Some (mkSignature (key_id pkey) digest) |}
  end.

(** [req.get_pubkey()]: the object returned holds the public part only. *)
Definition get_pubkey (req : X509Req) : result PKey :=
  match req_pubkey req with
  | Some k => Val (public_part k)
  | None => Raise OpenSSLError
  end.

(** [cert.get_pubkey()] *)
Definition X509_get_pubkey (cert : X509) : result PKey :=
  match pubkey cert with
  | Some k => Val (public_part k)
  | None => Raise OpenSSLError
  end.

(** The loop of [sign] over [extensions]: a callable is applied to the
    certificate as it stands, then the extension is added. *)
Fixpoint add_each (extensions : list ext_arg) (cert : X509) : result X509 :=
  match extensions with
  | [] => Val cert
  | ext :: rest =>
      let built :=
        match ext with
        | Callable f => f cert
        | Ext e => Val e
        end in
      match built with
      | Val e => add_each rest (add_extensions [e] cert)
      | Raise x => Raise x
      | Untyped => Untyped
      end
  end.

(** [cert.sign(issuer_key, digest)] *)
Definition X509_sign (issuer_key : PKey) (digest : string) (cert : X509)
    : result X509 :=
  match sign_error issuer_key digest with
  | Some e => Raise e
  | None => Val (set_signature (mkSignature (key_id issuer_key) digest) cert)
  end.

(** History: [cert] has left [sign]. *)
Definition record_issued (cert : X509) : M unit :=
  fun w =>
    (Val tt,
     {| self := self w; fs := fs w; stdout := stdout w;
        issued := issued w ++ [cert]; next_key := next_key w;
        clock := clock w |}).

Definition sign {I} `{HasSubject I} (req : X509Req)
    (issuer_cert_key : I * PKey) (validity_period : Z * Z)
    (digest : string) (extensions : list ext_arg) : M X509 :=
  let '(issuer_cert, issuer_key) := issuer_cert_key in
  let '(not_before, not_after) := validity_period in
  s <- get_self ;;
  now <- (fun w => (Val (clock w), w)) ;;
  let cert := X509_new in
  let cert := set_serial_number (serial s) cert in
  let cert := gmtime_adj_notBefore now not_before cert in
  let cert := gmtime_adj_notAfter now not_after cert in
  let cert := set_issuer (get_subject issuer_cert) cert in
  let cert := set_subject (get_subject req) cert in
  pk <- lift (get_pubkey req) ;;
  let cert := set_pubkey pk cert in
  put_self (set_serial (serial s + 1) s) ;;;
  cert <- lift (add_each extensions cert) ;;
  cert <- lift (X509_sign issuer_key digest cert) ;;
  record_issued cert ;;;
  ret cert.

Definition write_key_cert_pair (name : string) (key : PKey) (cert : X509)
    (signing_cert : string) : M (option KeyCertPair) :=
  try_except
    (s <- get_self ;;
     let cert_info := key_cert_pair_for_name s name "" "" "" signing_cert in
     makedirs (dir_name cert_info) (oct 7 5 5) ;;;
     open_w (key_file cert_info) ;;;
     fh_write (key_file cert_info) (PemKey key) ;;;
     open_w (cert_file cert_info) ;;;
     fh_write (cert_file cert_info) (PemCert cert) ;;;
     chmod (key_file cert_info) (oct 6 0 0) ;;;
     chmod (cert_file cert_info) (oct 6 4 4) ;;;
     store_add cert_info ;;;
     ret (Some cert_info))
    (fun e =>
       match e with
       | FileNotFoundError =>
           Some (print [PStr "Could not write file:"; PExn e] ;;; ret None)
       | _ => None
       end).

(** [crypto.load_privatekey(FILETYPE_PEM, text)] *)
Definition load_privatekey (data : content) : result PKey :=
  match data with
  | PemKey k => Val k
  | _ => Raise (pem_error data)
  end.

(** [crypto.load_certificate(FILETYPE_PEM, text)] *)
Definition load_certificate (data : content) : result X509 :=
  match data with
  | PemCert c => Val c
  | _ => Raise (pem_error data)
  end.

Definition load_key_cert_pair (name : string) : M (option (PKey * X509)) :=
  try_except
    (cert_info <- store_get name ;;
     match cert_info with
     | None => raise AttributeError
     | Some cert_info =>
         text <- open_r (key_file cert_info) ;;
         key <- lift (load_privatekey text) ;;
         text <- open_r (cert_file cert_info) ;;
         cert <- lift (load_certificate text) ;;
         ret (Some (key, cert))
     end)
    (fun e =>
       match e with
       | FileNotFoundError =>
           Some (print [PStr "Could not load file:"; PExn e] ;;; ret None)
       | _ => None
       end).

(** [if alt_names: extensions.append(X509Extension(b"subjectAltName", False, alt_names))] *)
Definition append_alt_names (alt_names : string) (extensions : list ext_arg)
    : M (list ext_arg) :=
  if truthy alt_names then
    e <- lift (X509Extension_new "subjectAltName" false alt_names None None) ;;
    ret (extensions ++ [Ext e])
  else ret extensions.

Definition create_ca (name : string) (cert_type bits : Z)
    (alt_names : string) (years : Z) : M (option KeyCertPair) :=
  cakey <- create_key_pair cert_type bits ;;
  req <- create_request cakey "sha256" [("CN", name)] ;;
  e1 <- lift (X509Extension_new "basicConstraints" true "CA:true, pathlen:0" None None) ;;
  e2 <- lift (X509Extension_new "keyUsage" true "keyCertSign, cRLSign" None None) ;;
  e3 <- lift (X509Extension_new "extendedKeyUsage" true "serverAuth, clientAuth" None None) ;;
  let extensions :=
    [Ext e1; Ext e2; Ext e3;
     Callable (fun cert =>
       X509Extension_new "subjectKeyIdentifier" false "hash" (Some cert) None);
     Callable (fun cert =>
       X509Extension_new "authorityKeyIdentifier" false "keyid:always" None (Some cert))] in
  extensions <- append_alt_names alt_names extensions ;;
  cacert <- sign req (req, cakey) (0, 60 * 60 * 24 * 365 * years) "sha256" extensions ;;
  write_key_cert_pair name cakey cacert "" ;;;
  store_get name.

Definition create_signed_pair (name ca_name : string) (cert_type bits : Z)
    (years : Z) (alt_names : string) : M (option KeyCertPair) :=
  key <- create_key_pair cert_type bits ;;
  req <- create_request key "sha256" [("CN", name)] ;;
  e1 <- lift (X509Extension_new "extendedKeyUsage" true "serverAuth, clientAuth" None None) ;;
  let extensions := [Ext e1] in
  extensions <- append_alt_names alt_names extensions ;;
  pair <- load_key_cert_pair ca_name ;;
  match pair with
  | None => raise TypeError
  | Some (cakey, cacert) =>
      cert <- sign req (cacert, cakey) (0, 60 * 60 * 24 * 365 * years) "sha256" extensions ;;
      ca_info <- store_get ca_name ;;
      match ca_info with
      | None => raise AttributeError
      | Some ca_info =>
          write_key_cert_pair name key cert (ca_file ca_info) ;;;
          store_get name
      end
  end.

End Workflow.

(** * Vocabulary of the properties *)

Definition is_val {A} (r : result A) : bool :=
  match r with
  | Val _ => true
  | _ => false
  end.

(** [keeps R m]: whatever [m] does and however it ends, the world it
    leaves is related by [R] to the world it started in. *)
Definition keeps (R : relation World) {A} (m : M A) : Prop :=
  forall w, R w (m w).2.

(** [quiet]: the object and the history are as they were. *)
Definition quiet : relation World :=
  fun w w' => self w' = self w /\ issued w' = issued w.

(** What the serial properties look at: the counter and the history. *)
Definition view (w : World) : Z * list X509 := (serial (self w), issued w).

(** [steady]: the counter and the history are as they were. *)
Definition steady : relation World := fun w w' => view w' = view w.

(** One issuance seen through [view]: nothing happened and the call did not
    return; or the serial was taken, no certificate came out and the call
    did not return; or the serial was taken by a certificate [c] that
    satisfies [P]. *)
Definition issue_step (P : X509 -> Prop) (v : Z * list X509) (returned : bool)
    (v' : Z * list X509) : Prop :=
  (v' = v /\ returned = false) \/
  (v' = (v.1 + 1, v.2) /\ returned = false) \/
  (exists c, P c /\ serial_number c = v.1 /\ v' = (v.1 + 1, v.2 ++ [c])).

Definition issues (P : X509 -> Prop) {A} (m : M A) : Prop :=
  forall w, issue_step P (view w) (is_val (m w).1) (view (m w).2).

(** The certificate [sign] works on just before the loop over the
    extensions. *)
Definition sign_base (serial now not_before not_after : Z)
    (issuer_name subject_name : X509Name) (pk : PKey) : X509 :=
  {| serial_number := serial; notBefore := Some (now + not_before);
     notAfter := Some (now + not_after); issuer := issuer_name;
     subject := subject_name; pubkey := Some (public_part pk);
     extensions := []; signature := None |}.

(** The certificate [cert] as it stood when [i] of its extensions had been
    added and it was not yet signed. *)
Definition under_construction (cert : X509) (i : nat) : X509 :=
  {| serial_number := serial_number cert; notBefore := notBefore cert;
     notAfter := notAfter cert; issuer := issuer cert; subject := subject cert;
     pubkey := pubkey cert; extensions := take i (extensions cert);
     signature := None |}.

(** The world after a call of [sign] that returned [cert]. *)
Definition signed_world (cert : X509) (w : World) : World :=
  {| self := set_serial (serial (self w) + 1) (self w); fs := fs w;
     stdout := stdout w; issued := issued w ++ [cert];
     next_key := next_key w; clock := clock w |}.

(** [carries exts c]: the extensions of [c] are those of [exts], one each
    and in that order; a callable was applied to [c] as it stood then. *)
Definition carries (exts : list ext_arg) (c : X509) : Prop :=
  length (extensions c) = length exts /\
  forall i,
    match exts !! i with
    | Some (Ext e) => extensions c !! i = Some e
    | Some (Callable f) =>
        exists e, f (under_construction c i) = Val e /\ extensions c !! i = Some e
    | None => True
    end.

(** What [sign] makes of a request, an issuer and a list of extensions. *)
Definition signed_from {I} `{HasSubject I} (req : X509Req) (issuer_cert : I)
    (exts : list ext_arg) (c : X509) : Prop :=
  issuer c = get_subject issuer_cert /\
  subject c = get_subject req /\
  carries exts c.

(** [a] is a value [m] can return. *)
Definition returns {A} (m : M A) (a : A) : Prop :=
  exists w w', m w = (Val a, w').

(** The two extensions that make a certificate a CA certificate. *)
Definition basic_constraints_ca : X509Extension :=
  mkX509Extension "basicConstraints" true "CA:true, pathlen:0" None None.

Definition key_usage_ca : X509Extension :=
  mkX509Extension "keyUsage" true "keyCertSign, cRLSign" None None.

Definition is_ca_certificate (c : X509) : Prop :=
  issuer c = subject c /\
  basic_constraints_ca ∈ extensions c /\
  key_usage_ca ∈ extensions c.

Definition is_leaf_certificate (c : X509) : Prop :=
  Forall (fun e => type_name e ≠ "basicConstraints" /\ type_name e ≠ "keyUsage")
    (extensions c).

(** The calls a user of one [Certipy] object makes between loads. *)
Inductive command :=
  | CreateCA (name : string) (cert_type bits : Z) (alt_names : string) (years : Z)
  | CreateSignedPair (name ca_name : string) (cert_type bits : Z) (years : Z)
      (alt_names : string)
  | StoreRemove (name : string)
  | StoreAdd (keyCertPair : KeyCertPair)
  | StoreGet (name : string)
  | StoreSave.

Definition is_issuance (c : command) : bool :=
  match c with
  | CreateCA _ _ _ _ _ | CreateSignedPair _ _ _ _ _ _ => true
  | _ => false
  end.

Section Commands.
Context `{OpenSSL}.

Definition exec (c : command) : M unit :=
  match c with
  | CreateCA name cert_type bits alt_names years =>
      create_ca name cert_type bits alt_names years ;;; ret tt
  | CreateSignedPair name ca_name cert_type bits years alt_names =>
      create_signed_pair name ca_name cert_type bits years alt_names ;;; ret tt
  | StoreRemove name => store_remove name
  | StoreAdd keyCertPair => store_add keyCertPair
  | StoreGet name => store_get name ;;; ret tt
  | StoreSave => store_save
  end.

(** The commands one after the other; a caller that catches what a
    command raises goes on with the next one. *)
Fixpoint run (cs : list command) (w : World) : World :=
  match cs with
  | [] => w
  | c :: rest => run rest (exec c w).2
  end.

(** Every issuance among the commands returned to its caller. *)
Fixpoint issuances_return (cs : list command) (w : World) : bool :=
  match cs with
  | [] => true
  | c :: rest =>
      (negb (is_issuance c) || is_val (exec c w).1)
      && issuances_return rest (exec c w).2
  end.

End Commands.

Fixpoint issuance_count (cs : list command) : nat :=
  match cs with
  | [] => O
  | c :: rest => (if is_issuance c then 1 else 0) + issuance_count rest
  end.

(** Each number is less than every later one. *)
Definition strictly_increasing (l : list Z) : Prop :=
  forall (i j : nat) (x y : Z),
    (i < j)%nat -> l !! i = Some x -> l !! j = Some y -> x < y.

(** [[z; z + 1; ...]], [n] of them. *)
Fixpoint count_from (z : Z) (n : nat) : list Z :=
  match n with
  | O => []
  | S n' => z :: count_from (z + 1) n'
  end.

(** The names a file lists: the keys of ["cert_info"] when the file holds
    a JSON object in which ["cert_info"] is an object. *)
Definition document_names (data : content) : list string :=
  match data with
  | JsonDoc (JObj top) =>
      match dict_get "cert_info" top with
      | Some (JObj cert_info) => cert_info.*1
      | _ => []
      end
  | _ => []
  end.

(** The names in the record file of the object. *)
Definition names_on_file (w : World) : list string :=
  match fs w !! slash (store_dir (self w)) (record_file (self w)) with
  | Some (File _ data) => document_names data
  | _ => []
  end.

(** [frame name]: what the dictionary holds under [name] is as it was. *)
Definition frame (name : string) : relation World :=
  fun w w' => certs (self w') !! name = certs (self w) !! name.

(** [same_store]: the dictionary and the store directory are as they
    were. *)
Definition same_store : relation World :=
  fun w w' =>
    certs (self w') = certs (self w) /\ store_dir (self w') = store_dir (self w).

(** [registers name ca s0], between worlds whose store directory is the
    one of [s0]: the dictionary is as it was, or it has got under [name]
    the record with the default paths of [name] and the CA file [ca]. *)
Definition registers (name ca : string) (s0 : Certipy) : relation World :=
  fun w w' =>
    store_dir (self w) = store_dir s0 ->
    store_dir (self w') = store_dir s0 /\
    (certs (self w') = certs (self w) \/
     certs (self w') =
       <[name := key_cert_pair_for_name s0 name "" "" "" ca]> (certs (self w))).

(** [grows]: every name of the dictionary is still one. *)
Definition grows : relation World :=
  fun w w' =>
    forall name, is_Some (certs (self w) !! name) -> is_Some (certs (self w') !! name).

(** ** A binding and some worlds to run the program in *)

(** A binding that makes RSA keys of a positive size and DSA keys, signs
    with a private key and accepts every name and extension. *)
Definition plain_openssl : OpenSSL :=
  {| generate_key_error t bits :=
       if (t =? TYPE_RSA)%Z
       then (if (bits <=? 0)%Z then Some ValueError else None)
       else if (t =? TYPE_DSA)%Z then None else Some OpenSSLError;
     name_attr_error _ _ := None;
     sign_error k _ := if only_public k then Some ValueError else None;
     extension_error _ _ _ _ _ := None;
     pem_error _ := OpenSSLError |}.

(** A new object in a working directory that has an empty [out]. *)
Definition fresh_world : World :=
  {| self := init "out" "store.json";
     fs := {[ "" := Dir (oct 7 5 5); "out" := Dir (oct 7 5 5) ]};
     stdout := []; issued := []; next_key := 0; clock := 1000000 |}.

(** The same, with a record file that may be read but not written. *)
Definition readonly_world : World :=
  {| self := init "out" "store.json";
     fs := {[ "" := Dir (oct 7 5 5); "out" := Dir (oct 7 5 5);
              "out/store.json" := File (oct 4 4 4) (Raw "") ]};
     stdout := []; issued := []; next_key := 0; clock := 1000000 |}.

(** The same as [fresh_world], without the directory [out]. *)
Definition no_dir_world : World :=
  {| self := init "out" "store.json";
     fs := {[ "" := Dir (oct 7 5 5) ]};
     stdout := []; issued := []; next_key := 0; clock := 1000000 |}.

(** An object that knows ["old"], next to a record file that lists
    ["new"] and the serial 7. *)
Definition merge_world : World :=
  {| self :=
       {| certs := {[ "old" := mkKeyCertPair "old" "out/old" "out/old/old.key"
                                 "out/old/old.crt" "out/old/old.crt" ]};
          store_dir := "out"; record_file := "store.json"; serial := 3 |};
     fs := {[ "" := Dir (oct 7 5 5); "out" := Dir (oct 7 5 5);
              "out/store.json" :=
                File (oct 6 4 4)
                  (JsonDoc (JObj [("serial", JInt 7);
                                  ("cert_info",
                                   JObj [("new",
                                          JArr [JStr "new"; JStr "out/new";
                                                JStr "out/new/new.key";
                                                JStr "out/new/new.crt";
                                                JStr "out/new/new.crt"])])])) ]};
     stdout := []; issued := []; next_key := 0; clock := 1000000 |}.

(** A store whose CA ["root"] has its files in place and a record with an
    empty CA file, as [store_add] or a record file can put it there. *)
Definition anchorless_world : World :=
  let made := (@create_ca plain_openssl "root" TYPE_RSA 2048 "" 5 fresh_world).2 in
  (store_add (mkKeyCertPair "root" "out/root" "out/root/root.key"
                "out/root/root.crt" "") made).2.

(** ** Vocabulary of the further properties *)

(** The world after [print(line)]. *)
Definition printed (line : list parg) (w : World) : World :=
  {| self := self w; fs := fs w; stdout := stdout w ++ [line];
     issued := issued w; next_key := next_key w; clock := clock w |}.

(** The world with the dictionary [c] and the serial [z] in the object. *)
Definition with_store (c : gmap string KeyCertPair) (z : Z) (w : World) : World :=
  set_self (set_certs c (set_serial z (self w))) w.

(** [calm]: only the count of generated keys may have moved. *)
Definition calm : relation World :=
  fun w w' =>
    self w' = self w /\ fs w' = fs w /\ stdout w' = stdout w /\
    issued w' = issued w /\ clock w' = clock w.

(** [silent]: nothing was printed. *)
Definition silent : relation World := fun w w' => stdout w' = stdout w.

(** [off_path p]: what the file system holds at [p] is as it was. *)
Definition off_path (p : string) : relation World :=
  fun w w' => fs w' !! p = fs w !! p.

(** What [store_load] reports about a file before it reads any field of
    it: [ValueError] for a text that is no JSON document, [TypeError] for a
    document that is no object. *)
Definition document_error (data : content) : option exn :=
  match data with
  | JsonDoc (JObj _) => None
  | JsonDoc _ => Some TypeError
  | _ => Some ValueError
  end.

(** Every record names a CA file. *)
Definition anchored (c : gmap string KeyCertPair) : Prop :=
  forall n r, c !! n = Some r -> truthy (ca_file r) = true.

(** A command that puts no record without a CA file into the store. *)
Definition anchored_command (c : command) : Prop :=
  match c with
  | StoreAdd r => truthy (ca_file r) = true
  | _ => True
  end.

(** The seconds of [years] years, as [create_ca] counts them. *)
Definition years_seconds (years : Z) : Z := 60 * 60 * 24 * 365 * years.

(** A store with the CA ["root"], whose key file has gone from the disk. *)
Definition keyless_world : World :=
  let made := (@create_ca plain_openssl "root" TYPE_RSA 2048 "" 5 fresh_world).2 in
  set_fs (delete "out/root/root.key" (fs made)) made.

(** An object that knows ["old"] next to a record file whose second entry
    has four fields. *)
Definition broken_entry_world : World :=
  {| self := self merge_world;
     fs := {[ "" := Dir (oct 7 5 5); "out" := Dir (oct 7 5 5);
              "out/store.json" :=
                File (oct 6 4 4)
                  (JsonDoc (JObj [("serial", JInt 7);
                                  ("cert_info",
                                   JObj [("new", info_json
                                            (mkKeyCertPair "new" "out/new"
                                               "out/new/new.key" "out/new/new.crt"
                                               "out/new/new.crt"));
                                         ("bad", JArr [JStr "bad"; JStr "out/bad";
                                                       JStr "k"; JStr "c"]);
                                         ("late", info_json
                                            (mkKeyCertPair "late" "out/late"
                                               "out/late/late.key"
                                               "out/late/late.crt"
                                               "out/late/late.crt"))])])) ]};
     stdout := []; issued := []; next_key := 0; clock := 1000000 |}.
(** * Reasoning about method bodies *)

Section Keeps.
Context (R : relation World) `{!PreOrder R}.

Lemma keeps_ret {A} (a : A) : keeps R (ret a).
Proof. intros w. simpl. reflexivity. Qed.

Lemma keeps_raise {A} (e : exn) : keeps R (@raise A e).
Proof. intros w. simpl. reflexivity. Qed.

Lemma keeps_untyped {A} : keeps R (@untyped A).
Proof. intros w. simpl. reflexivity. Qed.

Lemma keeps_lift {A} (r : result A) : keeps R (lift r).
Proof. intros w. simpl. reflexivity. Qed.

Lemma keeps_bind {A B} (m : M A) (f : A -> M B) :
  keeps R m -> (forall a, keeps R (f a)) -> keeps R (bind m f).
Proof.
  intros Hm Hf w. unfold bind. specialize (Hm w).
  destruct (m w) as [[a | e |] w1]; simpl in *; trivial.
  etransitivity; [exact Hm | apply Hf].
Qed.

Lemma keeps_try {A} (m : M A) (h : exn -> option (M A)) :
  keeps R m -> (forall e k, h e = Some k -> keeps R k) ->
  keeps R (try_except m h).
Proof.
  intros Hm Hh w. unfold try_except. specialize (Hm w).
  destruct (m w) as [[a | e |] w1]; simpl in *; trivial.
  destruct (h e) as [k |] eqn:E; simpl; trivial.
  etransitivity; [exact Hm | eapply Hh; eauto].
Qed.
End Keeps.

Lemma keeps_weaken (R R' : relation World) {A} (m : M A) :
  (forall w w', R w w' -> R' w w') -> keeps R m -> keeps R' m.
Proof. intros HR Hm w. apply HR, Hm. Qed.

(** What [bind] did, read off its outcome. *)
Lemma bind_eq {A B} (m : M A) (f : A -> M B) w :
  bind m f w =
  match m w with
  | (Val a, w') => f a w'
  | (Raise e, w') => (Raise e, w')
  | (Untyped, w') => (Untyped, w')
  end.
Proof. reflexivity. Qed.

Lemma bind_val_inv {A B} (m : M A) (f : A -> M B) w b w' :
  bind m f w = (Val b, w') ->
  exists a w1, m w = (Val a, w1) /\ f a w1 = (Val b, w').
Proof.
  rewrite bind_eq. destruct (m w) as [[a | e |] w1]; intros E; try discriminate.
  eauto.
Qed.

(** [s = self], then [k s]. *)
Lemma keeps_get_self (R : relation World) {A} (k : Certipy -> M A) :
  (forall w, R w (k (self w) w).2) -> keeps R (bind get_self k).
Proof. intros Hk w. rewrite bind_eq. apply Hk. Qed.

(** A step that leaves the object [s] alone, then [f]. *)
Lemma step_quiet (R : relation World) `{!PreOrder R} {A B} (m : M A) (f : A -> M B)
    (s : Certipy) (w : World) :
  keeps quiet m -> (forall w1 w2, quiet w1 w2 -> R w1 w2) -> self w = s ->
  (forall a w1, self w1 = s -> R w1 (f a w1).2) ->
  R w (bind m f w).2.
Proof.
  intros Hm HqR Hs Hf. rewrite bind_eq. specialize (Hm w).
  destruct (m w) as [[a | e |] w1]; simpl in *; try by apply HqR.
  etransitivity; [by apply HqR |]. apply Hf. destruct Hm as [Hm _]. congruence.
Qed.

#[export] Instance quiet_preorder : PreOrder quiet.
Proof.
  split.
  - intros w. split; reflexivity.
  - intros w1 w2 w3 [H1 H2] [H3 H4]. split; congruence.
Qed.

Create HintDb certipy discriminated.

(** Splits a goal [keeps R m] along the shape of [m]. *)
Ltac keeps_split :=
  repeat first
    [ progress intros
    | solve [eauto with certipy]
    | match goal with
      | H : Some _ = Some _ |- _ => inversion H; subst; clear H
      | H : None = Some _ |- _ => discriminate H
      | H : match ?e with _ => _ end = Some _ |- _ => destruct e; try discriminate H
      | |- keeps _ (bind _ _) => apply keeps_bind; [typeclasses eauto | | ]
      | |- keeps _ (try_except _ _) => apply keeps_try; [typeclasses eauto | | ]
      | |- keeps _ (ret _) => apply keeps_ret; typeclasses eauto
      | |- keeps _ (raise _) => apply keeps_raise; typeclasses eauto
      | |- keeps _ untyped => apply keeps_untyped; typeclasses eauto
      | |- keeps _ (lift _) => apply keeps_lift; typeclasses eauto
      | |- keeps _ (match ?x with _ => _ end) => destruct x
      | |- keeps _ (if ?b then _ else _) => destruct b
      end ].

Section QuietSteps.

Lemma get_self_quiet : keeps quiet get_self.
Proof. intros w. split; reflexivity. Qed.

Lemma get_fs_quiet : keeps quiet get_fs.
Proof. intros w. split; reflexivity. Qed.

Lemma put_fs_quiet f : keeps quiet (put_fs f).
Proof. intros w. split; reflexivity. Qed.

Lemma print_quiet args : keeps quiet (print args).
Proof. intros w. split; reflexivity. Qed.

Hint Resolve get_self_quiet get_fs_quiet put_fs_quiet print_quiet : certipy.

Lemma open_w_quiet p : keeps quiet (open_w p).
Proof. unfold open_w. keeps_split. Qed.

Lemma fh_write_quiet p data : keeps quiet (fh_write p data).
Proof. unfold fh_write. keeps_split. Qed.

Lemma open_r_quiet p : keeps quiet (open_r p).
Proof. unfold open_r. keeps_split. Qed.

Lemma mkdir_exist_ok_quiet leaf d mode : keeps quiet (mkdir_exist_ok leaf d mode).
Proof. unfold mkdir_exist_ok. keeps_split. Qed.

Hint Resolve mkdir_exist_ok_quiet : certipy.

Lemma makedirs_chain_quiet chain mode : keeps quiet (makedirs_chain chain mode).
Proof.
  induction chain as [| d rest IH]; simpl.
  - keeps_split.
  - destruct rest as [| d' rest']; keeps_split.
Qed.

Lemma makedirs_quiet p mode : keeps quiet (makedirs p mode).
Proof. apply makedirs_chain_quiet. Qed.

Lemma chmod_quiet p mode : keeps quiet (chmod p mode).
Proof. unfold chmod. keeps_split. Qed.

Lemma certs_item_quiet name : keeps quiet (certs_item name).
Proof. unfold certs_item. keeps_split. Qed.

Hint Resolve certs_item_quiet : certipy.

Lemma store_get_quiet name : keeps quiet (store_get name).
Proof. unfold store_get. keeps_split. Qed.

Hint Resolve open_w_quiet fh_write_quiet : certipy.

Lemma store_save_quiet : keeps quiet store_save.
Proof. unfold store_save. keeps_split. Qed.

End QuietSteps.

#[export] Hint Resolve get_self_quiet get_fs_quiet put_fs_quiet print_quiet
  open_w_quiet fh_write_quiet open_r_quiet mkdir_exist_ok_quiet
  makedirs_chain_quiet makedirs_quiet chmod_quiet certs_item_quiet
  store_get_quiet store_save_quiet : certipy.

(** ** The signing primitive *)

Section Signing.
Context `{OpenSSL}.

Lemma add_each_app exts c c' :
  add_each exts c = Val c' ->
  exists es,
    c' = add_extensions es c /\ length es = length exts /\
    forall i,
      match exts !! i with
      | Some (Ext e) => es !! i = Some e
      | Some (Callable f) =>
          exists e, f (add_extensions (take i es) c) = Val e /\ es !! i = Some e
      | None => True
      end.
Proof.
  revert c. induction exts as [| ext rest IH]; intros c Hc; simpl in Hc.
  - inversion Hc; subst. exists []. split; [| split; [reflexivity |]].
    + destruct c'; unfold add_extensions; simpl. by rewrite app_nil_r.
    + intros i. by rewrite lookup_nil.
  - destruct (match ext with Callable f => f c | Ext e => Val e end)
      as [e | x |] eqn:Hb; try discriminate.
    destruct (IH _ Hc) as (es & -> & Hlen & Hi).
    exists (e :: es). split; [| split].
    + destruct c; unfold add_extensions; simpl. by rewrite <- app_assoc.
    + simpl. by rewrite Hlen.
    + intros [| i]; simpl.
      * destruct ext as [e' | f]; [by inversion Hb |].
        exists e. split; [| done].
        destruct c; unfold add_extensions; simpl. by rewrite app_nil_r.
      * specialize (Hi i). destruct (rest !! i) as [[e' | f] |]; trivial.
        destruct Hi as (e' & Hf & He'). exists e'. split; [| done].
        rewrite <- Hf. f_equal.
        destruct c; unfold add_extensions; simpl. by rewrite <- app_assoc.
Qed.

(** [sign] returns a certificate exactly when the request has a key,
    every callable returns and the binding signs; this is then the
    certificate and the world. *)
Lemma sign_val_inv {I} `{HasSubject I} (req : X509Req) (issuer_cert : I)
    (issuer_key : PKey) (not_before not_after : Z) (digest : string)
    (extensions : list ext_arg) (w w' : World) (cert : X509) :
  sign req (issuer_cert, issuer_key) (not_before, not_after) digest extensions w
    = (Val cert, w') ->
  exists pk c1,
    req_pubkey req = Some pk /\
    add_each extensions
      (sign_base (serial (self w)) (clock w) not_before not_after
         (get_subject issuer_cert) (req_subject req) pk) = Val c1 /\
    sign_error issuer_key digest = None /\
    cert = set_signature (mkSignature (key_id issuer_key) digest) c1 /\
    w' = signed_world cert w.
Proof.
  unfold sign, bind, get_self, lift, get_pubkey, put_self, X509_sign,
    record_issued, ret. simpl.
  destruct (req_pubkey req) as [pk |]; [| discriminate]. simpl.
  match goal with
  | |- context [add_each extensions ?b] => destruct (add_each extensions b) as [c1 | |] eqn:E
  end; try discriminate. simpl.
  destruct (sign_error issuer_key digest); [discriminate |]. simpl.
  intros Heq. inversion Heq; subst. exists pk, c1.
  repeat split; try done.
Qed.

(** The other way round: with a key in the request, callables that return
    and a binding that signs, [sign] returns the certificate. *)
Lemma sign_returns {I} `{HasSubject I} (req : X509Req) (issuer_cert : I)
    (issuer_key : PKey) (not_before not_after : Z) (digest : string)
    (extensions : list ext_arg) (w : World) (pk : PKey) (c1 : X509) :
  req_pubkey req = Some pk ->
  add_each extensions
    (sign_base (serial (self w)) (clock w) not_before not_after
       (get_subject issuer_cert) (req_subject req) pk) = Val c1 ->
  sign_error issuer_key digest = None ->
  let cert := set_signature (mkSignature (key_id issuer_key) digest) c1 in
  sign req (issuer_cert, issuer_key) (not_before, not_after) digest extensions w
    = (Val cert, signed_world cert w).
Proof.
  intros Hpk Hadd Hsig cert.
  unfold sign, bind, get_self, lift, get_pubkey, put_self, X509_sign,
    record_issued, ret. simpl. rewrite Hpk. simpl.
  match goal with
  | |- context [add_each extensions ?b] =>
      replace (add_each extensions b) with (Val c1) by (symmetry; exact Hadd)
  end. simpl.
  by rewrite Hsig.
Qed.

End Signing.

Section SigningPrimitive.
Context `{OpenSSL}.

Lemma add_extensions_fields es c :
  serial_number (add_extensions es c) = serial_number c /\
  issuer (add_extensions es c) = issuer c /\
  subject (add_extensions es c) = subject c /\
  pubkey (add_extensions es c) = pubkey c /\
  signature (add_extensions es c) = signature c /\
  extensions (add_extensions es c) = extensions c ++ es.
Proof. repeat split. Qed.

Lemma sign_val_spec {I} `{HasSubject I} (req : X509Req) (issuer_cert : I)
    (issuer_key : PKey) (not_before not_after : Z) (digest : string)
    (extensions_arg : list ext_arg) (w w' : World) (cert : X509) :
  sign req (issuer_cert, issuer_key) (not_before, not_after) digest
    extensions_arg w = (Val cert, w') ->
  w' = signed_world cert w /\
  serial_number cert = serial (self w) /\
  X509_get_pubkey cert = get_pubkey req /\
  signed_from req issuer_cert extensions_arg cert /\
  signature cert = Some (mkSignature (key_id issuer_key) digest).
Proof.
  intros Hs. apply sign_val_inv in Hs as (pk & c1 & Hpk & Hadd & _ & -> & ->).
  apply add_each_app in Hadd as (es & -> & Hlen & Hi).
  repeat split; try done.
  unfold X509_get_pubkey, get_pubkey. by rewrite Hpk.
Qed.

(** C2.  When [sign] returns a certificate: its serial number is the serial
    of the object at the start of the call, and the serial of the object is
    then one more; its issuer is the subject of the issuer certificate, its
    subject the subject of the request, its public key the public key of
    the request; it carries one extension per element of [extensions], in
    that order, a plain extension as given and a callable applied to the
    certificate as it stood then, with the extensions before it and no
    signature; and it is signed with the issuer key. *)
Theorem sign_certificate {I} `{HasSubject I} (req : X509Req) (issuer_cert : I)
    (issuer_key : PKey) (not_before not_after : Z) (digest : string)
    (extensions_arg : list ext_arg) (w w' : World) (cert : X509) :
  sign req (issuer_cert, issuer_key) (not_before, not_after) digest
    extensions_arg w = (Val cert, w') ->
  serial_number cert = serial (self w) /\
  serial (self w') = serial (self w) + 1 /\
  issuer cert = get_subject issuer_cert /\
  subject cert = get_subject req /\
  X509_get_pubkey cert = get_pubkey req /\
  length (extensions cert) = length extensions_arg /\
  (forall i,
     match extensions_arg !! i with
     | Some (Ext e) => extensions cert !! i = Some e
     | Some (Callable f) =>
         exists e, f (under_construction cert i) = Val e /\
                   extensions cert !! i = Some e /\
                   signature (under_construction cert i) = None /\
                   extensions (under_construction cert i) = take i (extensions cert)
     | None => True
     end) /\
  signature cert = Some (mkSignature (key_id issuer_key) digest).
Proof.
  intros Hs.
  apply sign_val_spec in Hs as (-> & Hser & Hpk & (Hi & Hsu & Hlen & Hex) & Hsig).
  repeat split; try done.
  intros i. specialize (Hex i).
  destruct (extensions_arg !! i) as [[e | f] |]; trivial.
  destruct Hex as (e & Hf & He). by exists e.
Qed.

End SigningPrimitive.

(** C2 at work: the request of key 0 for ["web1"], signed by itself with
    one plain extension and one callable, in a new world. *)
Lemma sign_certificate_witness :
  let HO := plain_openssl in
  let key := mkPKey TYPE_RSA 2048 0 false in
  let req := mkX509Req [("CN", "web1")] (Some (public_part key))
               (Some (mkSignature 0 "sha256")) in
  let plain := mkX509Extension "extendedKeyUsage" true "serverAuth" None None in
  let exts := [Ext plain;
               Callable (fun cert =>
                 X509Extension_new "subjectKeyIdentifier" false "hash" (Some cert) None)] in
  exists cert w',
    sign req (req, key) (0, 3600) "sha256" exts fresh_world = (Val cert, w') /\
    serial_number cert = 0 /\ serial (self w') = 1 /\
    extensions cert !! 0%nat = Some plain /\
    signature cert = Some (mkSignature 0 "sha256").
Proof.
  intros HO key req plain exts. eexists _, _.
  split; [vm_compute; reflexivity |].
  match goal with
  | |- context [serial_number ?c] => set (cert := c)
  end.
  match goal with
  | |- context [self ?x] => set (w' := x)
  end.
  assert (Hs : sign req (req, key) (0, 3600) "sha256" exts fresh_world = (Val cert, w'))
    by (vm_compute; reflexivity).
  destruct (sign_certificate req req key 0 3600 "sha256" exts fresh_world w' cert Hs)
    as (H1 & H2 & _ & _ & _ & _ & Hi & H8).
  exact (conj H1 (conj H2 (conj (Hi 0%nat) H8))).
Defined.

(** * The store *)

(** C8.  With no path given, the record of [name] has the directory
    [<store_dir>/<name>], the key file [<dir_name>/<name>.key] and the
    certificate file [<dir_name>/<name>.crt], whatever CA file is passed;
    with no CA file either, its CA file is its certificate file.  For
    ["web1"] in the store directory ["out"] these are ["out/web1"],
    ["out/web1/web1.key"] and ["out/web1/web1.crt"]. *)
Theorem default_paths (s : Certipy) (name ca : string) :
  let r := key_cert_pair_for_name s name "" "" "" ca in
  let root := key_cert_pair_for_name s name "" "" "" "" in
  let web1 := key_cert_pair_for_name (init "out" "store.json") "web1" "" "" "" "" in
  dir_name r = store_dir s +:+ "/" +:+ name /\
  key_file r = dir_name r +:+ "/" +:+ name +:+ ".key" /\
  cert_file r = dir_name r +:+ "/" +:+ name +:+ ".crt" /\
  ca_file root = cert_file root /\
  web1 = mkKeyCertPair "web1" "out/web1" "out/web1/web1.key" "out/web1/web1.crt"
           "out/web1/web1.crt".
Proof.
  cbv zeta. unfold key_cert_pair_for_name, slash. simpl.
  repeat split.
Qed.

Lemma open_w_raise p e w w' : open_w p w = (Raise e, w') -> w' = w.
Proof.
  unfold open_w, bind, get_fs, put_fs, raise.
  destruct (fs w !! p) as [[m | m d] |].
  - by inversion 1.
  - destruct (writable m); by inversion 1.
  - destruct (fs w !! dirname p) as [[m | m d] |]; [| by inversion 1 ..].
    destruct (writable m); by inversion 1.
Qed.

(** C9.  Removing a name that is not in the store prints the message and
    returns; the serial, the records and everything else but the printed
    lines are as before. *)
Theorem store_remove_absent (w : World) (name : string) :
  certs (self w) !! name = None ->
  store_remove name w =
    (Val tt,
     {| self := self w; fs := fs w;
        stdout := stdout w ++ [[PStr ("No certificates found with name " +:+ name)]];
        issued := issued w; next_key := next_key w; clock := clock w |}).
Proof.
  intros Hn. unfold store_remove, try_except, del_cert, bind, get_self. simpl.
  by rewrite Hn.
Qed.

Lemma store_remove_absent_witness :
  certs (self fresh_world) !! "ghost" = None /\
  (store_remove "ghost" fresh_world).1 = Val tt /\
  self (store_remove "ghost" fresh_world).2 = self fresh_world.
Proof.
  assert (Hn : certs (self fresh_world) !! "ghost" = None) by reflexivity.
  split; [exact Hn |].
  rewrite (store_remove_absent fresh_world "ghost" Hn). split; reflexivity.
Defined.




(** * Issuance *)

#[export] Instance steady_preorder : PreOrder steady.
Proof.
  split.
  - intros w. reflexivity.
  - intros w1 w2 w3 H1 H2. unfold steady in *. congruence.
Qed.

Lemma quiet_steady w w' : quiet w w' -> steady w w'.
Proof. intros [Hs Hi]. unfold steady, view. by rewrite Hs, Hi. Qed.

Lemma keeps_quiet_steady {A} (m : M A) : keeps quiet m -> keeps steady m.
Proof. apply keeps_weaken, quiet_steady. Qed.

#[export] Hint Resolve keeps_quiet_steady : certipy.

Lemma set_cert_steady name r : keeps steady (set_cert name r).
Proof. intros w. reflexivity. Qed.

Lemma store_add_steady r : keeps steady (store_add r).
Proof. apply set_cert_steady. Qed.

Lemma del_cert_steady name : keeps steady (del_cert name).
Proof.
  intros w. unfold del_cert, bind, get_self. simpl.
  destruct (certs (self w) !! name); reflexivity.
Qed.

#[export] Hint Resolve set_cert_steady store_add_steady del_cert_steady : certipy.

Lemma store_remove_steady name : keeps steady (store_remove name).
Proof. unfold store_remove. keeps_split. Qed.

#[export] Hint Resolve store_remove_steady : certipy.

Lemma issue_step_weaken (P Q : X509 -> Prop) v ok v' :
  (forall c, P c -> Q c) -> issue_step P v ok v' -> issue_step Q v ok v'.
Proof.
  intros HPQ [H1 | [H2 | (c & Hc & Hs & Hv)]]; [by left | by right; left |].
  right; right. exists c. eauto.
Qed.

Lemma issues_weaken (P Q : X509 -> Prop) {A} (m : M A) :
  (forall c, P c -> Q c) -> issues P m -> issues Q m.
Proof. intros HPQ Hm w. eapply issue_step_weaken; eauto. Qed.

(** Steps that leave the counter and the history alone, then an issuance. *)
Lemma issues_after_steady (P : X509 -> Prop) {A B} (m : M A) (f : A -> M B) :
  keeps steady m -> (forall a, returns m a -> issues P (f a)) ->
  issues P (bind m f).
Proof.
  intros Hm Hf w. rewrite bind_eq. specialize (Hm w). unfold steady in Hm.
  destruct (m w) as [[a | e |] w1] eqn:E; simpl in *.
  - rewrite <- Hm. apply Hf. by exists w, w1.
  - left. by rewrite Hm.
  - left. by rewrite Hm.
Qed.

(** An issuance, then steps that leave the counter and the history alone. *)
Lemma issues_then_steady (P : X509 -> Prop) {A B} (m : M A) (f : A -> M B) :
  issues P m -> (forall a, keeps steady (f a)) -> issues P (bind m f).
Proof.
  intros Hm Hf w. rewrite bind_eq. specialize (Hm w).
  destruct (m w) as [[a | e |] w1] eqn:E; simpl in *; trivial.
  specialize (Hf a w1). unfold steady in Hf. rewrite Hf.
  destruct Hm as [[? ?] | [[? ?] | Hc]]; try discriminate.
  by right; right.
Qed.

Section Issuance.
Context `{OpenSSL}.

Lemma create_key_pair_quiet cert_type bits : keeps quiet (create_key_pair cert_type bits).
Proof.
  intros w. unfold create_key_pair.
  destruct (generate_key_error cert_type bits); split; reflexivity.
Qed.

Lemma create_request_quiet pkey digest name : keeps quiet (create_request pkey digest name).
Proof. unfold create_request. keeps_split. Qed.

Lemma append_alt_names_quiet alt_names exts : keeps quiet (append_alt_names alt_names exts).
Proof. unfold append_alt_names. keeps_split. Qed.

Lemma load_key_cert_pair_quiet name : keeps quiet (load_key_cert_pair name).
Proof. unfold load_key_cert_pair. keeps_split. Qed.

Lemma write_key_cert_pair_steady name key cert signing_cert :
  keeps steady (write_key_cert_pair name key cert signing_cert).
Proof. unfold write_key_cert_pair. keeps_split. Qed.

Lemma sign_issues {I} `{HasSubject I} (req : X509Req) (issuer_cert : I)
    (issuer_key : PKey) (validity_period : Z * Z) (digest : string)
    (exts : list ext_arg) :
  issues (signed_from req issuer_cert exts)
    (sign req (issuer_cert, issuer_key) validity_period digest exts).
Proof.
  intros w. destruct validity_period as [nb na].
  destruct (sign req (issuer_cert, issuer_key) (nb, na) digest exts w)
    as [[cert | e |] w'] eqn:E; simpl.
  - apply sign_val_spec in E as (-> & Hser & _ & Hfrom & _).
    right; right. exists cert.
    split; [exact Hfrom | split; [exact Hser | reflexivity]].
  - revert E. unfold sign, bind, get_self, lift, get_pubkey, put_self,
      X509_sign, record_issued, ret. simpl.
    destruct (req_pubkey req) as [pk |]; simpl; [| intros [= <- <-]; by left].
    match goal with
    | |- context [add_each exts ?b] => destruct (add_each exts b) as [c1 | x |]
    end; simpl; [| intros [= <- <-]; by right; left | discriminate].
    destruct (sign_error issuer_key digest); simpl; [| discriminate].
    intros [= <- <-]. by right; left.
  - revert E. unfold sign, bind, get_self, lift, get_pubkey, put_self,
      X509_sign, record_issued, ret. simpl.
    destruct (req_pubkey req) as [pk |]; simpl; [| discriminate].
    match goal with
    | |- context [add_each exts ?b] => destruct (add_each exts b) as [c1 | x |]
    end; simpl; [| discriminate | intros [= <-]; by right; left].
    destruct (sign_error issuer_key digest); simpl; discriminate.
Qed.

End Issuance.

#[export] Hint Resolve create_key_pair_quiet create_request_quiet
  append_alt_names_quiet load_key_cert_pair_quiet write_key_cert_pair_steady
  : certipy.

Lemma issues_raise (P : X509 -> Prop) {A} (e : exn) : issues P (@raise A e).
Proof. intros w. by left. Qed.

Lemma returns_lift {A} (r : result A) (a : A) : returns (lift r) a -> r = Val a.
Proof. intros (w & w' & E). by inversion E. Qed.

Lemma carries_plain (es : list X509Extension) (c : X509) :
  carries (map Ext es) c -> extensions c = es.
Proof.
  intros [Hlen Hi]. rewrite length_map in Hlen.
  apply list_eq. intros i. specialize (Hi i). rewrite list_lookup_fmap in Hi.
  destruct (es !! i) as [e |] eqn:E; simpl in Hi; [done |].
  apply lookup_ge_None. apply lookup_ge_None in E. lia.
Qed.

Lemma carries_elem (exts : list ext_arg) (c : X509) (i : nat) (e : X509Extension) :
  carries exts c -> exts !! i = Some (Ext e) -> e ∈ extensions c.
Proof.
  intros [_ Hi] E. specialize (Hi i). rewrite E in Hi.
  apply list_elem_of_lookup. by exists i.
Qed.

Section Profiles.
Context `{OpenSSL}.

Lemma X509Extension_new_val type_name critical value subject issuer e :
  X509Extension_new type_name critical value subject issuer = Val e ->
  e = mkX509Extension type_name critical value subject issuer.
Proof.
  unfold X509Extension_new.
  destruct (extension_error type_name critical value subject issuer);
    by inversion 1.
Qed.

Lemma returns_extension type_name critical value subject issuer e :
  returns (lift (X509Extension_new type_name critical value subject issuer)) e ->
  e = mkX509Extension type_name critical value subject issuer.
Proof. intros Hr. by apply X509Extension_new_val, returns_lift. Qed.

Lemma append_alt_names_returns alt_names exts exts' :
  returns (append_alt_names alt_names exts) exts' ->
  exts' = exts \/
  exts' = exts ++ [Ext (mkX509Extension "subjectAltName" false alt_names None None)].
Proof.
  intros (w & w' & E). revert E. unfold append_alt_names.
  destruct (truthy alt_names); [| intros [= <- _]; by left].
  rewrite bind_eq. unfold lift.
  destruct (X509Extension_new "subjectAltName" false alt_names None None)
    as [e | x |] eqn:He; try discriminate.
  apply X509Extension_new_val in He as ->. intros [= <- _]. by right.
Qed.

Lemma create_ca_issues name cert_type bits alt_names years :
  issues is_ca_certificate (create_ca name cert_type bits alt_names years).
Proof.
  unfold create_ca.
  apply issues_after_steady; [eauto with certipy | intros cakey _].
  apply issues_after_steady; [eauto with certipy | intros req _].
  apply issues_after_steady; [apply keeps_lift; typeclasses eauto | intros e1 He1].
  apply issues_after_steady; [apply keeps_lift; typeclasses eauto | intros e2 He2].
  apply issues_after_steady; [apply keeps_lift; typeclasses eauto | intros e3 _].
  apply returns_extension in He1 as ->. apply returns_extension in He2 as ->.
  apply issues_after_steady; [eauto with certipy | intros exts Hexts].
  apply issues_then_steady; [| keeps_split].
  eapply issues_weaken; [| apply sign_issues].
  intros c (Hi & Hs & Hc). split; [congruence |].
  apply append_alt_names_returns in Hexts as [-> | ->].
  - split; [by apply (carries_elem _ _ 0%nat _ Hc) | by apply (carries_elem _ _ 1%nat _ Hc)].
  - split; [by apply (carries_elem _ _ 0%nat _ Hc) | by apply (carries_elem _ _ 1%nat _ Hc)].
Qed.

Lemma create_signed_pair_issues name ca_name cert_type bits years alt_names :
  issues is_leaf_certificate
    (create_signed_pair name ca_name cert_type bits years alt_names).
Proof.
  unfold create_signed_pair.
  apply issues_after_steady; [eauto with certipy | intros key _].
  apply issues_after_steady; [eauto with certipy | intros req _].
  apply issues_after_steady; [apply keeps_lift; typeclasses eauto | intros e1 He1].
  apply returns_extension in He1 as ->.
  apply issues_after_steady; [eauto with certipy | intros exts Hexts].
  apply issues_after_steady; [eauto with certipy | intros pair _].
  destruct pair as [[cakey cacert] |]; [| apply issues_raise].
  apply issues_then_steady; [| keeps_split].
  eapply issues_weaken; [| apply sign_issues].
  intros c (_ & _ & Hc). unfold is_leaf_certificate.
  apply append_alt_names_returns in Hexts as [-> | ->].
  - rewrite (carries_plain [_] c Hc). by repeat constructor.
  - rewrite (carries_plain [_; _] c Hc). by repeat constructor.
Qed.

End Profiles.

(** * Serial numbers *)

Lemma issue_step_new (P : X509 -> Prop) (w w' : World) (ok : bool) (new : list X509) :
  issue_step P (view w) ok (view w') ->
  issued w' = issued w ++ new -> Forall P new.
Proof.
  unfold view. simpl.
  intros [[[= _ Hi] _] | [[[= _ Hi] _] | (c & Hc & _ & [= _ Hi])]] Hnew.
  - rewrite Hi in Hnew. rewrite <- (app_nil_r (issued w)) in Hnew at 1.
    apply app_inv_head in Hnew as <-. constructor.
  - rewrite Hi in Hnew. rewrite <- (app_nil_r (issued w)) in Hnew at 1.
    apply app_inv_head in Hnew as <-. constructor.
  - rewrite Hi in Hnew. apply app_inv_head in Hnew as <-. by repeat constructor.
Qed.

Lemma strictly_increasing_nil : strictly_increasing [].
Proof. intros i j x y _ Hi. by rewrite lookup_nil in Hi. Qed.

Lemma strictly_increasing_cons (z : Z) (l : list Z) :
  Forall (fun y => z < y) l -> strictly_increasing l ->
  strictly_increasing (z :: l).
Proof.
  intros Hz Hl i j x y Hij Hi Hj.
  destruct j as [| j]; [lia |]. simpl in Hj.
  destruct i as [| i]; simpl in Hi.
  - inversion Hi; subst. rewrite Forall_forall in Hz. apply Hz.
    apply list_elem_of_lookup. by exists j.
  - apply (Hl i j); [lia | done | done].
Qed.

Lemma strictly_increasing_NoDup (l : list Z) : strictly_increasing l -> NoDup l.
Proof.
  intros Hl. apply NoDup_alt. intros i j x Hi Hj.
  destruct (Nat.lt_trichotomy i j) as [Hlt | [-> | Hgt]]; [| done |].
  - pose proof (Hl i j x x Hlt Hi Hj). lia.
  - pose proof (Hl j i x x Hgt Hj Hi). lia.
Qed.

Section Serials.
Context `{OpenSSL}.

Lemma exec_issues (c : command) :
  is_issuance c = true -> issues (fun _ => True) (exec c).
Proof.
  destruct c; try discriminate; intros _; simpl.
  - apply issues_then_steady; [| keeps_split].
    eapply issues_weaken; [| apply create_ca_issues]. done.
  - apply issues_then_steady; [| keeps_split].
    eapply issues_weaken; [| apply create_signed_pair_issues]. done.
Qed.

Lemma exec_steady (c : command) :
  is_issuance c = false -> keeps steady (exec c).
Proof. destruct c; try discriminate; intros _; simpl; keeps_split. Qed.

Lemma run_serials (cs : list command) (w : World) :
  exists new,
    issued (run cs w) = issued w ++ new /\
    serial (self w) <= serial (self (run cs w)) /\
    Forall (fun c => serial (self w) <= serial_number c < serial (self (run cs w))) new /\
    strictly_increasing (map serial_number new) /\
    (issuances_return cs w = true ->
     map serial_number new = count_from (serial (self w)) (issuance_count cs) /\
     serial (self (run cs w)) = serial (self w) + Z.of_nat (issuance_count cs)).
Proof.
  revert w. induction cs as [| c rest IH]; intros w; simpl.
  { exists []. rewrite app_nil_r. split_and!; [done | lia | done | | ].
    - apply strictly_increasing_nil.
    - intros _. split; [done | lia]. }
  destruct (IH (exec c w).2) as (new2 & Hi2 & Hle2 & Hb2 & Hs2 & Hex2).
  set (w1 := (exec c w).2) in *.
  destruct (is_issuance c) eqn:Hc; simpl.
  - pose proof (exec_issues c Hc w) as Hstep. fold w1 in Hstep.
    unfold view in Hstep. simpl in Hstep.
    destruct Hstep as [[[= Hs Hi] Hv] | [[[= Hs Hi] Hv] | (c0 & _ & Hc0 & [= Hs Hi])]].
    + exists new2. rewrite Hi2, Hi. rewrite Hs in *.
      split_and!; [done | done | done | done |].
      rewrite Hv. discriminate.
    + exists new2. rewrite Hi2, Hi. rewrite Hs in *.
      split_and!; [done | lia | | done |].
      * eapply Forall_impl; [exact Hb2 |]. simpl. intros; lia.
      * rewrite Hv. discriminate.
    + simpl in Hc0.
      exists (c0 :: new2). rewrite Hi2, Hi, <- app_assoc. rewrite Hs in *.
      split_and!; [done | lia | | |].
      * constructor; [lia |].
        eapply Forall_impl; [exact Hb2 |]. simpl. intros; lia.
      * simpl. apply strictly_increasing_cons; [| done].
        rewrite Forall_fmap. eapply Forall_impl; [exact Hb2 |].
        simpl. intros; lia.
      * intros Hr. apply andb_prop in Hr as [_ Hr].
        destruct (Hex2 Hr) as [Hm Hf]. simpl. rewrite Hc0, Hm, Hf.
        split; [done | lia].
  - pose proof (exec_steady c Hc w) as Hstep. fold w1 in Hstep.
    unfold steady, view in Hstep. injection Hstep as Hs Hi.
    exists new2. rewrite Hi2, Hi. rewrite Hs in *.
    split_and!; [done | done | done | done |].
    intros Hr. destruct (Hex2 Hr) as [Hm Hf]. by rewrite Hm, Hf.
Qed.

End Serials.

Section IssuanceClaims.
Context `{OpenSSL}.



End IssuanceClaims.



(** * Saving and loading *)

Lemma KeyCertPair_unpack_info_json (r : KeyCertPair) :
  KeyCertPair_unpack (info_json r) = Val r.
Proof. by destruct r. Qed.

(** Loading what [store_save] wrote for the records [l] puts each of them
    into the dictionary. *)
Lemma load_items_saved (l : list (string * KeyCertPair)) (w : World) :
  load_items (map (fun kv => (kv.1, info_json kv.2)) l) w =
  (Val tt,
   set_self
     (set_certs (foldl (fun m kv => <[kv.1 := kv.2]> m) (certs (self w)) l) (self w))
     w).
Proof.
  revert w. induction l as [| [k r] l IH]; intros w.
  - simpl. unfold ret. f_equal. by destruct w as [[] ? ? ? ? ?].
  - cbn [map load_items fst snd foldl]. rewrite bind_eq. unfold lift.
    rewrite KeyCertPair_unpack_info_json.
    rewrite bind_eq. unfold set_cert at 1. rewrite bind_eq.
    cbn [get_self put_self]. rewrite IH. reflexivity.
Qed.

Lemma foldl_insert_lookup {A} (l : list (string * A)) (m0 : gmap string A) (k : string) :
  NoDup l.*1 ->
  foldl (fun m kv => <[kv.1 := kv.2]> m) m0 l !! k =
  match (list_to_map l : gmap string A) !! k with
  | Some v => Some v
  | None => m0 !! k
  end.
Proof.
  revert m0. induction l as [| [k1 v1] l IH]; intros m0 Hnd; simpl.
  - by rewrite lookup_empty.
  - apply NoDup_cons in Hnd as [Hk1 Hnd]. rewrite (IH _ Hnd).
    destruct (decide (k1 = k)) as [-> | Hne].
    + rewrite lookup_insert_eq.
      rewrite (not_elem_of_list_to_map_1 l k Hk1). by rewrite lookup_insert_eq.
    + rewrite !lookup_insert_ne by done. reflexivity.
Qed.

Lemma foldl_insert_map_to_list (m : gmap string KeyCertPair) :
  foldl (fun acc kv => <[kv.1 := kv.2]> acc) ∅ (map_to_list m) = m.
Proof.
  apply map_eq. intros k.
  rewrite foldl_insert_lookup by apply NoDup_fst_map_to_list.
  rewrite list_to_map_to_list, lookup_empty. by destruct (m !! k).
Qed.

Lemma open_w_val (p : string) (w w' : World) :
  open_w p w = (Val tt, w') ->
  exists m,
    w' = set_fs (<[p := File m (Raw "")]> (fs w)) w /\
    ((exists d, fs w !! p = Some (File m d)) \/
     (fs w !! p = None /\ m = N.ldiff (oct 6 6 6) umask)).
Proof.
  unfold open_w, bind, get_fs, put_fs, raise.
  destruct (fs w !! p) as [[m | m d] |] eqn:E.
  - discriminate.
  - destruct (writable m); [| discriminate]. intros [= <-]. exists m. eauto.
  - destruct (fs w !! dirname p) as [[m | m d] |]; try discriminate.
    destruct (writable m); [| discriminate]. intros [= <-]. eauto.
Qed.

(** C4.  When the record file can be opened for writing, and can be read
    if it is there already, [store_save] writes it and returns, and
    [store_load] on a new object for the same directory and file then
    returns with the serial and the records of the saved object, every
    field of every record as it was. *)
Theorem save_then_load (w : World) :
  let s := self w in
  let file_path := slash (store_dir s) (record_file s) in
  (open_w file_path w).1 = Val tt ->
  (forall m d, fs w !! file_path = Some (File m d) -> readable m = true) ->
  exists w1 w2,
    store_save w = (Val tt, w1) /\
    store_load (set_self (init (store_dir s) (record_file s)) w1) = (Val tt, w2) /\
    self w2 = s /\
    serial (self w2) = serial s /\
    certs (self w2) = certs s.
Proof.
  intros s file_path Hopen Hread.
  destruct (open_w file_path w) as [r w0] eqn:Eo. simpl in Hopen. subst r.
  destruct (open_w_val _ _ _ Eo) as (m & -> & Hm).
  assert (Hrd : readable m = true).
  { destruct Hm as [[d Hd] | [_ ->]]; [by eapply Hread | reflexivity]. }
  set (out := JObj [("serial", JInt (serial s)); ("cert_info", certs_json (certs s))]).
  set (f1 := <[file_path := File m (JsonDoc out)]> (<[file_path := File m (Raw "")]> (fs w))).
  assert (Hsave : store_save w = (Val tt, set_fs f1 w)).
  { unfold store_save. rewrite bind_eq. cbn [get_self]. fold s file_path.
    unfold try_except. rewrite bind_eq, Eo. unfold fh_write.
    rewrite bind_eq. cbn [get_fs set_fs fs]. rewrite lookup_insert_eq.
    reflexivity. }
  exists (set_fs f1 w). eexists. split; [exact Hsave |].
  assert (Hload :
    store_load (set_self (init (store_dir s) (record_file s)) (set_fs f1 w)) =
    (Val tt, set_self s (set_fs f1 w))).
  { unfold store_load. rewrite bind_eq. cbn [get_self set_self self init store_dir record_file].
    fold file_path. unfold try_except. rewrite bind_eq.
    unfold open_r. rewrite bind_eq. cbn [get_fs set_self set_fs fs].
    unfold f1 at 1. rewrite lookup_insert_eq, Hrd. cbn [ret].
    unfold load_document, out. cbn [dict_get]. 
    rewrite !decide_True by done. rewrite decide_False by done.
    rewrite decide_True by done.
    rewrite bind_eq. cbn [get_self]. rewrite bind_eq. cbn [put_self].
    unfold certs_json. rewrite load_items_saved.
    cbn [self set_self set_serial set_certs certs init serial store_dir record_file].
    rewrite foldl_insert_map_to_list.
    f_equal. subst s. by destruct w as [[] ? ? ? ? ?]. }
  split; [exact Hload |]. by repeat split.
Qed.

#[export] Instance frame_preorder name : PreOrder (frame name).
Proof.
  split.
  - intros w. reflexivity.
  - intros w1 w2 w3 H1 H2. unfold frame in *. congruence.
Qed.

#[export] Instance grows_preorder : PreOrder grows.
Proof.
  split.
  - intros w name Hn. exact Hn.
  - intros w1 w2 w3 H1 H2 name Hn. by apply H2, H1.
Qed.

Lemma keeps_quiet_frame name {A} (m : M A) : keeps quiet m -> keeps (frame name) m.
Proof. apply keeps_weaken. intros w w' [Hs _]. unfold frame. by rewrite Hs. Qed.

Lemma keeps_quiet_grows {A} (m : M A) : keeps quiet m -> keeps grows m.
Proof. apply keeps_weaken. intros w w' [Hs _] name. by rewrite Hs. Qed.

#[export] Hint Resolve keeps_quiet_frame keeps_quiet_grows : certipy.

Lemma set_cert_frame k r name : k ≠ name -> keeps (frame name) (set_cert k r).
Proof. intros Hne w. unfold frame. simpl. by rewrite lookup_insert_ne. Qed.

Lemma set_cert_grows k r : keeps grows (set_cert k r).
Proof.
  intros w name Hn. simpl. destruct (decide (k = name)) as [-> | Hne].
  - rewrite lookup_insert_eq. eauto.
  - by rewrite lookup_insert_ne.
Qed.

Lemma load_items_frame items name :
  name ∉ items.*1 -> keeps (frame name) (load_items items).
Proof.
  induction items as [| [k info] rest IH]; intros Hn; simpl.
  - keeps_split.
  - apply not_elem_of_cons in Hn as [Hne Hn]. simpl in Hne.
    apply keeps_bind; [typeclasses eauto | keeps_split |]. intros r.
    apply keeps_bind; [typeclasses eauto | by apply set_cert_frame |].
    intros _. by apply IH.
Qed.

Lemma load_items_grows items : keeps grows (load_items items).
Proof.
  induction items as [| [k info] rest IH]; simpl.
  - keeps_split.
  - apply keeps_bind; [typeclasses eauto | keeps_split |]. intros r.
    apply keeps_bind; [typeclasses eauto | apply set_cert_grows |].
    intros _. exact IH.
Qed.

(** [self.serial = z], then [k]. *)
Lemma keeps_after_set_serial (R : relation World) `{!PreOrder R} z {A} (k : M A) :
  (forall w, R w (set_self (set_serial z (self w)) w)) -> keeps R k ->
  keeps R (s <- get_self ;; put_self (set_serial z s) ;;; k).
Proof.
  intros Hz Hk w. rewrite bind_eq. cbn [get_self]. rewrite bind_eq. cbn [put_self].
  etransitivity; [apply Hz | apply Hk].
Qed.

Lemma load_document_frame data name :
  name ∉ document_names data -> keeps (frame name) (load_document data).
Proof.
  intros Hn. unfold load_document.
  destruct data as [text | [| b | z | l | s | items | top] | k | c]; try by keeps_split.
  destruct (dict_get "serial" top) as [[| b | z | l | s | items | top'] |];
    try by keeps_split.
  apply keeps_after_set_serial; [typeclasses eauto | by intros w |].
  simpl in Hn.
  destruct (dict_get "cert_info" top) as [[| b | z' | l | s | items | cert_info] |];
    try by keeps_split.
  by apply load_items_frame.
Qed.

Lemma load_document_grows data : keeps grows (load_document data).
Proof.
  unfold load_document.
  destruct data as [text | [| b | z | l | s | items | top] | k | c]; try by keeps_split.
  destruct (dict_get "serial" top) as [[| b | z | l | s | items | top'] |];
    try by keeps_split.
  apply keeps_after_set_serial; [typeclasses eauto | by intros w name |].
  destruct (dict_get "cert_info" top) as [[| b | z' | l | s | items | cert_info] |];
    try by keeps_split.
  apply load_items_grows.
Qed.

Lemma open_r_inv p w r w' :
  open_r p w = (r, w') ->
  w' = w /\
  forall data, r = Val data -> exists m, fs w !! p = Some (File m data).
Proof.
  unfold open_r, bind, get_fs, raise, ret.
  destruct (fs w !! p) as [[m | m d] |].
  - intros [= <- <-]. split; [done | discriminate].
  - destruct (readable m); intros [= <- <-]; (split; [done |]); [| discriminate].
    intros data [= <-]. eauto.
  - intros [= <- <-]. split; [done | discriminate].
Qed.

Lemma store_load_handler_quiet file_path dir e k :
  match e with
  | FileNotFoundError =>
      Some (print [PStr ("No store file at " +:+ file_path +:+ ". Creating a new one.")] ;;;
            makedirs dir (oct 7 5 5))
  | TypeError => Some (print [PStr "Problems loading store:"; PExn e])
  | ValueError => Some (print [PStr "Problems loading store:"; PExn e])
  | _ => None
  end = Some k ->
  keeps quiet k.
Proof. destruct e; intros [= <-]; keeps_split. Qed.

(** What [store_load] does to the dictionary is what its [with] block
    does, on the text of the record file. *)
Lemma store_load_keeps (R : relation World) `{!PreOrder R} (w : World) :
  (forall w w', quiet w w' -> R w w') ->
  (forall m data,
     fs w !! slash (store_dir (self w)) (record_file (self w)) = Some (File m data) ->
     keeps R (load_document data)) ->
  R w (store_load w).2.
Proof.
  intros HqR Hdoc. unfold store_load. rewrite bind_eq. cbn [get_self].
  set (file_path := slash (store_dir (self w)) (record_file (self w))) in *.
  unfold try_except. rewrite bind_eq.
  destruct (open_r file_path w) as [r w0] eqn:Eo.
  apply open_r_inv in Eo as [-> Hdata].
  assert (Hh : forall e w1, R w w1 ->
    R w
      (match
         match e with
         | FileNotFoundError =>
             Some (print [PStr ("No store file at " +:+ file_path +:+ ". Creating a new one.")] ;;;
                   makedirs (store_dir (self w)) (oct 7 5 5))
         | TypeError => Some (print [PStr "Problems loading store:"; PExn e])
         | ValueError => Some (print [PStr "Problems loading store:"; PExn e])
         | _ => None
         end
       with
       | Some handler => handler w1
       | None => (Raise e, w1)
       end).2).
  { intros e w1 Hw1.
    destruct (match e with FileNotFoundError => _ | _ => _ end) as [k |] eqn:Ek;
      [| exact Hw1].
    etransitivity; [exact Hw1 |]. apply HqR.
    by apply (store_load_handler_quiet _ _ _ _ Ek). }
  destruct r as [data | e |].
  - destruct (Hdata data eq_refl) as [m Hm]. specialize (Hdoc m data Hm w).
    destruct (load_document data w) as [[[] | e |] w1]; simpl in *; trivial.
    by apply Hh.
  - apply Hh. reflexivity.
  - simpl. reflexivity.
Qed.

(** C10.  [store_load] removes nothing from the dictionary: a record that
    was there is still under its name however the load ends, and it is the
    same record when the record file does not list its name. *)
Theorem load_keeps_records (w : World) (name : string) (r : KeyCertPair) :
  certs (self w) !! name = Some r ->
  is_Some (certs (self (store_load w).2) !! name) /\
  (name ∉ names_on_file w -> certs (self (store_load w).2) !! name = Some r).
Proof.
  intros Hr. split.
  - apply (store_load_keeps grows w); [| | by rewrite Hr].
    + intros w1 w2 [Hs _] n. by rewrite Hs.
    + intros _ data _. apply load_document_grows.
  - intros Hn. rewrite <- Hr. apply (store_load_keeps (frame name) w).
    + intros w1 w2 [Hs _]. unfold frame. by rewrite Hs.
    + intros m data Hm. apply load_document_frame.
      unfold names_on_file in Hn. by rewrite Hm in Hn.
Qed.

(** C10 at work: the object knows ["old"], the file lists ["new"]; after
    the load it knows both, and ["old"] as before. *)
Lemma load_keeps_records_witness :
  let old := mkKeyCertPair "old" "out/old" "out/old/old.key" "out/old/old.crt"
               "out/old/old.crt" in
  certs (self merge_world) !! "old" = Some old /\
  ("old" ∉ names_on_file merge_world) /\
  certs (self (store_load merge_world).2) !! "old" = Some old /\
  is_Some (certs (self (store_load merge_world).2) !! "new") /\
  serial (self (store_load merge_world).2) = 7.
Proof.
  intros old.
  assert (Ho : certs (self merge_world) !! "old" = Some old) by reflexivity.
  assert (Hn : "old" ∉ names_on_file merge_world).
  { vm_compute. intros Hin. apply list_elem_of_In in Hin as [Heq | []]. discriminate. }
  destruct (load_keeps_records merge_world "old" old Ho) as [_ Hsame].
  split; [exact Ho |]. split; [exact Hn |]. split; [exact (Hsame Hn) |].
  split; [vm_compute; eauto | vm_compute; reflexivity].
Defined.

(** C4 at work: a CA and a leaf are issued, the store is saved, and a new
    object loads it. *)
Lemma save_then_load_witness :
  let HO := plain_openssl in
  let w := run [CreateCA "root" TYPE_RSA 2048 "" 5;
                CreateSignedPair "svc" "root" TYPE_RSA 2048 5 ""] fresh_world in
  (open_w "out/store.json" w).1 = Val tt /\
  exists w1 w2,
    store_save w = (Val tt, w1) /\
    store_load (set_self (init "out" "store.json") w1) = (Val tt, w2) /\
    serial (self w2) = 2 /\
    dom (certs (self w2)) = {[ "root"; "svc" ]}.
Proof.
  intros HO w.
  assert (Hopen : (open_w (slash (store_dir (self w)) (record_file (self w))) w).1 = Val tt)
    by (vm_compute; reflexivity).
  assert (Hread : forall m d,
            fs w !! slash (store_dir (self w)) (record_file (self w)) = Some (File m d) ->
            readable m = true).
  { intros m d Hf. vm_compute in Hf. discriminate. }
  split; [exact Hopen |].
  destruct (save_then_load w Hopen Hread) as (w1 & w2 & Hs & Hl & _ & Hser & Hcerts).
  exists w1, w2. split; [exact Hs |]. split; [exact Hl |].
  split; [rewrite Hser; vm_compute; reflexivity |].
  rewrite Hcerts. vm_compute. reflexivity.
Defined.

(** * Records and trust anchors *)

Lemma key_cert_pair_for_name_store_dir s s' name a b c d :
  store_dir s = store_dir s' ->
  key_cert_pair_for_name s name a b c d = key_cert_pair_for_name s' name a b c d.
Proof. intros Hs. unfold key_cert_pair_for_name. by rewrite Hs. Qed.

#[export] Instance same_store_preorder : PreOrder same_store.
Proof.
  split.
  - intros w. by split.
  - intros w1 w2 w3 [H1 H2] [H3 H4]. split; congruence.
Qed.

#[export] Instance registers_preorder name ca s0 : PreOrder (registers name ca s0).
Proof.
  split.
  - intros w Hd. split; [done | by left].
  - intros w1 w2 w3 H1 H2 Hd.
    destruct (H1 Hd) as [Hd2 H1']. destruct (H2 Hd2) as [Hd3 H2'].
    split; [done |].
    destruct H1' as [E1 | E1], H2' as [E2 | E2]; rewrite E2, E1; try by eauto.
    right. by rewrite insert_insert_eq.
Qed.

Lemma quiet_same_store w w' : quiet w w' -> same_store w w'.
Proof. intros [Hs _]. split; by rewrite Hs. Qed.

Lemma same_store_registers name ca s0 w w' :
  same_store w w' -> registers name ca s0 w w'.
Proof. intros [Hc Hd] Hs. split; [congruence | by left]. Qed.

Lemma keeps_quiet_registers name ca s0 {A} (m : M A) :
  keeps quiet m -> keeps (registers name ca s0) m.
Proof.
  apply keeps_weaken. intros w w' Hq. by apply same_store_registers, quiet_same_store.
Qed.

#[export] Hint Resolve keeps_quiet_registers : certipy.

Lemma store_get_val_inv name w r w' :
  store_get name w = (Val (Some r), w') ->
  w' = w /\ certs (self w) !! name = Some r.
Proof.
  unfold store_get, try_except, certs_item. rewrite !bind_eq. cbn [get_self].
  destruct (certs (self w) !! name) as [r0 |]; simpl.
  - by intros [= -> <-].
  - discriminate.
Qed.

Section Anchors.
Context `{OpenSSL}.

Lemma sign_same_store {I} `{HasSubject I} req (ick : I * PKey) vp digest exts :
  keeps same_store (sign req ick vp digest exts).
Proof.
  intros w. destruct ick as [ic ik], vp as [nb na].
  unfold sign, bind, get_self, lift, get_pubkey, put_self, X509_sign,
    record_issued, ret. simpl.
  destruct (req_pubkey req) as [pk |]; simpl; [| by split].
  match goal with
  | |- context [add_each exts ?b] => destruct (add_each exts b) as [c1 | x |]
  end; simpl; try by split.
  destruct (sign_error ik digest); simpl; by split.
Qed.

Lemma sign_registers {I} `{HasSubject I} name ca s0 req (ick : I * PKey) vp digest exts :
  keeps (registers name ca s0) (sign req ick vp digest exts).
Proof.
  eapply keeps_weaken; [apply same_store_registers | apply sign_same_store].
Qed.

Lemma store_add_registers name ca s0 w :
  store_dir (self w) = store_dir s0 ->
  registers name ca s0 w
    (store_add (key_cert_pair_for_name (self w) name "" "" "" ca) w).2.
Proof.
  intros Hd _. split; [done |]. right. simpl.
  by rewrite (key_cert_pair_for_name_store_dir (self w) s0).
Qed.

Lemma write_key_cert_pair_registers name key cert ca s0 :
  keeps (registers name ca s0) (write_key_cert_pair name key cert ca).
Proof.
  unfold write_key_cert_pair.
  apply keeps_try; [typeclasses eauto | | by keeps_split].
  apply keeps_get_self. intros w.
  assert (Hq : forall w1 w2, quiet w1 w2 -> registers name ca s0 w1 w2)
    by (intros w1 w2 Hq; by apply same_store_registers, quiet_same_store).
  do 7 (eapply (step_quiet _ _ _ (self w)); [eauto with certipy | exact Hq | done |];
        intros [] ? ?).
  rewrite bind_eq.
  match goal with
  | Hs : self ?w1 = self w |- _ => rewrite <- Hs
  end.
  intros Hd. by apply store_add_registers.
Qed.

Hint Resolve sign_registers write_key_cert_pair_registers : certipy.

Lemma create_ca_registers name cert_type bits alt_names years s0 :
  keeps (registers name "" s0) (create_ca name cert_type bits alt_names years).
Proof. unfold create_ca. keeps_split. Qed.

Lemma keeps_quiet_same_store {A} (m : M A) : keeps quiet m -> keeps same_store m.
Proof. apply keeps_weaken, quiet_same_store. Qed.

Hint Resolve keeps_quiet_same_store sign_same_store : certipy.

(** A step that leaves the dictionary alone since [w0], then [f]. *)
Lemma step_same_store {A B} (m : M A) (f : A -> M B) (w0 w : World)
    (P : World -> Prop) :
  keeps same_store m -> same_store w0 w ->
  (forall w1, same_store w0 w1 -> P w1) ->
  (forall a w1, same_store w0 w1 -> P (f a w1).2) ->
  P (bind m f w).2.
Proof.
  intros Hm Hw Hstop Hf. rewrite bind_eq. specialize (Hm w).
  assert (Hw1 : same_store w0 (m w).2) by (etransitivity; eauto).
  destruct (m w) as [[a | e |] w1]; simpl in *; eauto.
Qed.

Lemma create_signed_pair_registers name ca_name cert_type bits years alt_names
    (w : World) :
  let w' := (create_signed_pair name ca_name cert_type bits years alt_names w).2 in
  store_dir (self w') = store_dir (self w) /\
  (certs (self w') = certs (self w) \/
   exists X,
     certs (self w) !! ca_name = Some X /\
     certs (self w') =
       <[name := key_cert_pair_for_name (self w) name "" "" "" (ca_file X)]>
         (certs (self w))).
Proof.
  cbv zeta.
  set (P := fun w' : World =>
    store_dir (self w') = store_dir (self w) /\
    (certs (self w') = certs (self w) \/
     exists X,
       certs (self w) !! ca_name = Some X /\
       certs (self w') =
         <[name := key_cert_pair_for_name (self w) name "" "" "" (ca_file X)]>
           (certs (self w)))).
  change (P (create_signed_pair name ca_name cert_type bits years alt_names w).2).
  assert (Hstop : forall w1, same_store w w1 -> P w1).
  { intros w1 [Hc Hd]. split; [done | by left]. }
  unfold create_signed_pair.
  apply (step_same_store _ _ w); [eauto with certipy | reflexivity | exact Hstop |].
  intros key w1 H1.
  apply (step_same_store _ _ w); [eauto with certipy | done | exact Hstop |].
  intros req w2 H2.
  apply (step_same_store _ _ w);
    [apply keeps_lift; typeclasses eauto | done | exact Hstop |].
  intros e1 w3 H3.
  apply (step_same_store _ _ w); [eauto with certipy | done | exact Hstop |].
  intros exts w4 H4.
  apply (step_same_store _ _ w); [eauto with certipy | done | exact Hstop |].
  intros [[cakey cacert] |] w5 H5; [| by apply Hstop].
  apply (step_same_store _ _ w); [eauto with certipy | done | exact Hstop |].
  intros cert w6 H6. rewrite bind_eq.
  destruct (store_get ca_name w6) as [[[X |] | e |] w7] eqn:Eg.
  - apply store_get_val_inv in Eg as [-> HX].
    destruct H6 as [Hc6 Hd6]. rewrite Hc6 in HX.
    assert (Hk : keeps (registers name (ca_file X) (self w))
              (write_key_cert_pair name key cert (ca_file X) ;;; store_get name))
      by keeps_split.
    destruct (Hk w6 Hd6) as [Hd' Hc']. split; [done |].
    rewrite Hc6 in Hc'. destruct Hc' as [-> | ->]; [by left |].
    right. by exists X.
  - apply Hstop. etransitivity; [exact H6 |].
    apply quiet_same_store. pose proof (store_get_quiet ca_name w6) as Hq.
    by rewrite Eg in Hq.
  - apply Hstop. etransitivity; [exact H6 |].
    apply quiet_same_store. pose proof (store_get_quiet ca_name w6) as Hq.
    by rewrite Eg in Hq.
  - apply Hstop. etransitivity; [exact H6 |].
    apply quiet_same_store. pose proof (store_get_quiet ca_name w6) as Hq.
    by rewrite Eg in Hq.
Qed.

Lemma ca_file_default s name ca :
  let r := key_cert_pair_for_name s name "" "" "" ca in
  ca_file r = if truthy ca then ca else cert_file r.
Proof. cbv zeta. unfold key_cert_pair_for_name. simpl. by destruct (truthy ca). Qed.

Lemma create_ca_returns name cert_type bits alt_names years w r w' :
  create_ca name cert_type bits alt_names years w = (Val (Some r), w') ->
  certs (self w') !! name = Some r.
Proof.
  unfold create_ca. intros E.
  repeat (apply bind_val_inv in E as (? & ? & _ & E)).
  by apply store_get_val_inv in E as [-> Hr].
Qed.

Lemma create_signed_pair_returns name ca_name cert_type bits years alt_names w r w' :
  create_signed_pair name ca_name cert_type bits years alt_names w = (Val (Some r), w') ->
  certs (self w') !! name = Some r.
Proof.
  unfold create_signed_pair. intros E.
  do 5 (apply bind_val_inv in E as (? & ? & _ & E)).
  match type of E with
  | match ?p with _ => _ end _ = _ => destruct p as [[cakey cacert] |]
  end; [| discriminate].
  do 2 (apply bind_val_inv in E as (? & ? & _ & E)).
  match type of E with
  | match ?p with _ => _ end _ = _ => destruct p as [ca_info |]
  end; [| discriminate].
  apply bind_val_inv in E as (? & ? & _ & E).
  by apply store_get_val_inv in E as [-> Hr].
Qed.

(** C5, as the code has it.  [create_ca] either leaves the records as they
    were or puts under [name] the record with the default paths, whose CA
    file is its own certificate file; [create_signed_pair] either leaves
    the records as they were or puts under [name] the record with the
    default paths and the CA file of the record [X] of the CA when that is
    not empty, its own certificate file when it is.  For a name that was
    not in the store, a record returned is that record. *)
Theorem trust_anchor_of_registered_record :
  (forall name cert_type bits alt_names years w,
     let out := create_ca name cert_type bits alt_names years w in
     let r := key_cert_pair_for_name (self w) name "" "" "" "" in
     ca_file r = cert_file r /\
     (certs (self out.2) = certs (self w) \/
      certs (self out.2) = <[name := r]> (certs (self w))) /\
     (forall r', out.1 = Val (Some r') -> certs (self w) !! name = None ->
        r' = r /\ certs (self out.2) !! name = Some r)) /\
  (forall name ca_name cert_type bits years alt_names w,
     let out := create_signed_pair name ca_name cert_type bits years alt_names w in
     (certs (self out.2) = certs (self w) \/
      exists X r,
        certs (self w) !! ca_name = Some X /\
        r = key_cert_pair_for_name (self w) name "" "" "" (ca_file X) /\
        certs (self out.2) = <[name := r]> (certs (self w)) /\
        ca_file r = if truthy (ca_file X) then ca_file X else cert_file r) /\
     (forall r', out.1 = Val (Some r') -> certs (self w) !! name = None ->
        exists X,
          certs (self w) !! ca_name = Some X /\
          certs (self out.2) !! name = Some r' /\
          ca_file r' = if truthy (ca_file X) then ca_file X else cert_file r')).
Proof.
  split.
  - intros name cert_type bits alt_names years w out r.
    destruct (create_ca_registers name cert_type bits alt_names years (self w) w eq_refl)
      as [_ Hreg]. fold out r in Hreg.
    split_and!; [reflexivity | exact Hreg |].
    intros r' Hout Hnew.
    assert (Hr' : certs (self out.2) !! name = Some r').
    { apply (create_ca_returns name cert_type bits alt_names years w r' out.2).
      rewrite <- Hout. apply surjective_pairing. }
    destruct Hreg as [Hc | Hc]; rewrite Hc in Hr'.
    + congruence.
    + rewrite lookup_insert_eq in Hr'. injection Hr' as <-. by rewrite Hc, lookup_insert_eq.
  - intros name ca_name cert_type bits years alt_names w out.
    destruct (create_signed_pair_registers name ca_name cert_type bits years alt_names w)
      as [_ Hreg]. fold out in Hreg.
    split.
    + destruct Hreg as [Hc | (X & HX & Hc)]; [by left |].
      right. exists X, (key_cert_pair_for_name (self w) name "" "" "" (ca_file X)).
      split_and!; try done.
    + intros r' Hout Hnew.
      assert (Hr' : certs (self out.2) !! name = Some r').
      { apply (create_signed_pair_returns name ca_name cert_type bits years alt_names
                 w r' out.2).
        rewrite <- Hout. apply surjective_pairing. }
      destruct Hreg as [Hc | (X & HX & Hc)].
      * rewrite Hc in Hr'. congruence.
      * exists X. split_and!; try done.
        rewrite Hc, lookup_insert_eq in Hr'. injection Hr' as <-.
        apply ca_file_default.
Qed.

End Anchors.

(** C5, as stated, fails: the record of the CA ["root"] has an empty CA
    file; the leaf ["svc"] it signs is registered with its own certificate
    file as CA file, not with the CA file of ["root"]. *)
Lemma trust_anchor_not_propagated :
  let HO := plain_openssl in
  exists X r w',
    certs (self anchorless_world) !! "root" = Some X /\
    create_signed_pair "svc" "root" TYPE_RSA 2048 5 "" anchorless_world
      = (Val (Some r), w') /\
    certs (self w') !! "svc" = Some r /\
    stdout w' = [] /\
    ca_file X = "" /\
    ca_file r = "out/svc/svc.crt" /\
    ca_file r <> ca_file X.
Proof.
  intros HO. eexists _, _, _.
  split; [vm_compute; reflexivity |].
  split; [vm_compute; reflexivity |].
  split; [vm_compute; reflexivity |].
  split; [vm_compute; reflexivity |].
  split; [reflexivity |].
  split; [reflexivity |].
  discriminate.
Qed.

(** C5 at work: the CA ["root"] made in a new store is its own trust
    anchor, and the leaf ["svc"] it signs gets the CA file of ["root"]. *)
Lemma trust_anchor_of_registered_record_witness :
  let HO := plain_openssl in
  let root := create_ca "root" TYPE_RSA 2048 "" 5 fresh_world in
  let svc := create_signed_pair "svc" "root" TYPE_RSA 2048 5 "" root.2 in
  exists r_root r_svc,
    root.1 = Val (Some r_root) /\ svc.1 = Val (Some r_svc) /\
    ca_file r_root = cert_file r_root /\
    ca_file r_svc = ca_file r_root.
Proof.
  intros HO root svc.
  destruct (@trust_anchor_of_registered_record HO) as [Hca Hleaf].
  destruct (Hca "root" TYPE_RSA 2048 "" 5 fresh_world) as (Hself & _ & Hroot).
  destruct (Hleaf "svc" "root" TYPE_RSA 2048 5 "" root.2) as (_ & Hsvc).
  eexists _, _.
  assert (H1 : root.1 = Val (Some _)) by (vm_compute; reflexivity).
  assert (H2 : svc.1 = Val (Some _)) by (vm_compute; reflexivity).
  destruct (Hroot _ H1 eq_refl) as [Hr _].
  destruct (Hsvc _ H2 eq_refl) as (X & HX & _ & Hanchor).
  split; [exact H1 |]. split; [exact H2 |].
  split; [rewrite Hr; exact Hself |].
  vm_compute. reflexivity.
Defined.

(** * A leaf for a CA that is not in the store *)

Section AbsentCA.
Context `{OpenSSL}.

Lemma load_key_cert_pair_absent name w :
  certs (self w) !! name = None ->
  load_key_cert_pair name w =
    (Raise AttributeError,
     {| self := self w; fs := fs w;
        stdout := stdout w ++ [[PStr ("No certificates found with name " +:+ name)]];
        issued := issued w; next_key := next_key w; clock := clock w |}).
Proof.
  intros Hn. unfold load_key_cert_pair, try_except, store_get, certs_item.
  rewrite !bind_eq. cbn [get_self]. unfold try_except. rewrite !bind_eq.
  cbn [get_self]. by rewrite Hn.
Qed.

(** A step that leaves the object alone since [w0], then [f], in a call
    that must not return. *)
Lemma step_no_return {A B} (m : M A) (f : A -> M B) (w0 w : World) :
  keeps quiet m -> quiet w0 w ->
  (forall a w1, quiet w0 w1 ->
     is_val (f a w1).1 = false /\ quiet w0 (f a w1).2) ->
  is_val (bind m f w).1 = false /\ quiet w0 (bind m f w).2.
Proof.
  intros Hm Hw Hf. rewrite bind_eq. specialize (Hm w).
  assert (Hw1 : quiet w0 (m w).2) by (etransitivity; eauto).
  destruct (m w) as [[a | e |] w1]; simpl in *; eauto.
Qed.

(** With a CA name that is not in the store, [create_signed_pair] never
    returns to its caller: it raises; the object and the history are as
    before. *)
Lemma create_signed_pair_absent_ca name ca_name cert_type bits years alt_names w :
  certs (self w) !! ca_name = None ->
  let out := create_signed_pair name ca_name cert_type bits years alt_names w in
  is_val out.1 = false /\ quiet w out.2.
Proof.
  intros Hn. cbv zeta. unfold create_signed_pair.
  apply step_no_return; [eauto with certipy | reflexivity |]. intros key w1 H1.
  apply step_no_return; [eauto with certipy | done |]. intros req w2 H2.
  apply step_no_return; [apply keeps_lift; typeclasses eauto | done |].
  intros e1 w3 H3.
  apply step_no_return; [eauto with certipy | done |]. intros exts w4 H4.
  rewrite bind_eq, load_key_cert_pair_absent.
  - simpl. split; [done |]. destruct H4 as [Hs Hi]. by split.
  - destruct H4 as [Hs _]. by rewrite Hs.
Qed.

End AbsentCA.

(** C6, on the code.  In a new store, a leaf asked of the CA ["nope"]: the
    message is printed, then [create_signed_pair] raises [AttributeError]
    to its caller; no record is added and the serial is not taken. *)
Theorem leaf_for_absent_ca_raises :
  let HO := plain_openssl in
  let out := create_signed_pair "svc" "nope" TYPE_RSA 2048 5 "" fresh_world in
  certs (self fresh_world) !! "nope" = None /\
  out.1 = Raise AttributeError /\
  stdout out.2 = [[PStr "No certificates found with name nope"]] /\
  self out.2 = self fresh_world.
Proof.
  intros HO out.
  assert (Hn : certs (self fresh_world) !! "nope" = None) by reflexivity.
  destruct (create_signed_pair_absent_ca "svc" "nope" TYPE_RSA 2048 5 "" fresh_world Hn)
    as [_ [Hself _]].
  split; [exact Hn |]. split; [vm_compute; reflexivity |].
  split; [vm_compute; reflexivity | exact Hself].
Qed.

(** * Further properties of the store *)

(** What a [bind] gives is read off what its first step gives. *)
Lemma bind_elim {A B} (m : M A) (f : A -> M B) (w : World)
    (P : result B * World -> Prop) :
  (forall a w1, m w = (Val a, w1) -> P (f a w1)) ->
  (forall e w1, m w = (Raise e, w1) -> P (Raise e, w1)) ->
  (forall w1, m w = (Untyped, w1) -> P (Untyped, w1)) ->
  P (bind m f w).
Proof.
  intros Hv He Hu. rewrite bind_eq.
  destruct (m w) as [[a | e |] w1]; eauto.
Qed.

Lemma store_get_eq (name : string) (w : World) :
  store_get name w =
  match certs (self w) !! name with
  | Some r => (Val (Some r), w)
  | None => (Val None, printed [PStr ("No certificates found with name " +:+ name)] w)
  end.
Proof.
  unfold store_get, try_except, certs_item. rewrite !bind_eq. cbn [get_self].
  by destruct (certs (self w) !! name).
Qed.

(** X1.  A record that was added is the one [store_get] returns under its
    name, with nothing printed; under any other name [store_get] answers
    as it did before the addition. *)
Theorem store_add_then_get (r : KeyCertPair) (w : World) :
  (store_add r ;;; store_get (name r)) w =
    (Val (Some r), set_self (set_certs (<[name r := r]> (certs (self w))) (self w)) w) /\
  forall n, n ≠ name r ->
    ((store_add r ;;; store_get n) w).1 = (store_get n w).1.
Proof.
  split.
  - rewrite bind_eq. unfold store_add, set_cert. rewrite bind_eq.
    cbn [get_self put_self]. rewrite store_get_eq.
    cbn [self set_self certs set_certs]. by rewrite lookup_insert_eq.
  - intros n Hn. rewrite bind_eq. unfold store_add, set_cert. rewrite bind_eq.
    cbn [get_self put_self]. rewrite !store_get_eq.
    cbn [self set_self certs set_certs]. rewrite lookup_insert_ne by done.
    by destruct (certs (self w) !! n).
Qed.

(** X2.  Removing a name that is in the store takes its record out of the
    dictionary and nothing else: the other records, the serial, the files
    on disk and the printed lines are as before; [store_get] of the name
    then prints that it is not found and returns [None]. *)
Theorem store_remove_present (name : string) (r : KeyCertPair) (w : World) :
  certs (self w) !! name = Some r ->
  let w' := set_self (set_certs (delete name (certs (self w))) (self w)) w in
  store_remove name w = (Val tt, w') /\
  fs w' = fs w /\ stdout w' = stdout w /\ serial (self w') = serial (self w) /\
  (forall n, n ≠ name -> certs (self w') !! n = certs (self w) !! n) /\
  store_get name w' =
    (Val None, printed [PStr ("No certificates found with name " +:+ name)] w').
Proof.
  intros Hr w'. split_and!; try done.
  - unfold store_remove, try_except, del_cert. rewrite bind_eq. cbn [get_self].
    by rewrite Hr.
  - intros n Hn. simpl. by rewrite lookup_delete_ne.
  - rewrite store_get_eq. subst w'. cbn [self set_self certs set_certs].
    by rewrite lookup_delete_eq.
Qed.

Lemma store_remove_present_witness :
  let old := mkKeyCertPair "old" "out/old" "out/old/old.key" "out/old/old.crt"
               "out/old/old.crt" in
  certs (self merge_world) !! "old" = Some old /\
  (store_remove "old" merge_world).1 = Val tt /\
  certs (self (store_remove "old" merge_world).2) = ∅ /\
  fs (store_remove "old" merge_world).2 = fs merge_world.
Proof.
  intros old.
  assert (Ho : certs (self merge_world) !! "old" = Some old) by reflexivity.
  destruct (store_remove_present "old" old merge_world Ho) as (Hrm & Hfs & _).
  split; [exact Ho |]. rewrite Hrm. split; [reflexivity |].
  split; [| exact Hfs]. simpl. apply delete_singleton_eq.
Defined.

Lemma truthy_append_r (a b : string) : truthy b = true -> truthy (a +:+ b) = true.
Proof. intros Hb. destruct a; [exact Hb | reflexivity]. Qed.

Lemma append_inj_l (a b c : string) : a +:+ b = a +:+ c -> b = c.
Proof.
  induction a as [| x a IH]; simpl; intros E; [exact E |].
  injection E as E. by apply IH.
Qed.

Lemma key_file_not_cert_file (d n : string) :
  d +:+ "/" +:+ n +:+ ".key" ≠ d +:+ "/" +:+ n +:+ ".crt".
Proof.
  intros E. do 3 apply append_inj_l in E. discriminate E.
Qed.

(** X3.  Whatever arguments it gets, [key_cert_pair_for_name] returns a
    record under the given name in which no path is empty; an argument that
    is not empty is kept as it is, and the default key and certificate
    files lie in the directory of the record, under two different names. *)
Theorem key_cert_pair_paths (s : Certipy) (n d k c ca : string) :
  let r := key_cert_pair_for_name s n d k c ca in
  name r = n /\
  truthy (dir_name r) = true /\ truthy (key_file r) = true /\
  truthy (cert_file r) = true /\ truthy (ca_file r) = true /\
  (truthy d = true -> dir_name r = d) /\
  (truthy k = true -> key_file r = k) /\
  (truthy c = true -> cert_file r = c) /\
  (truthy ca = true -> ca_file r = ca) /\
  (truthy k = false -> key_file r = dir_name r +:+ "/" +:+ n +:+ ".key") /\
  (truthy c = false -> cert_file r = dir_name r +:+ "/" +:+ n +:+ ".crt") /\
  (truthy k = false -> truthy c = false -> key_file r ≠ cert_file r).
Proof.
  cbv zeta. unfold key_cert_pair_for_name, slash. cbn [name dir_name key_file cert_file ca_file].
  assert (Hd : truthy (if truthy d then d else store_dir s +:+ "/" +:+ n) = true).
  { destruct (truthy d) eqn:E; [exact E | by apply truthy_append_r]. }
  assert (Hk : forall x, truthy (if truthy k then k else x +:+ "/" +:+ n +:+ ".key") = true).
  { intros x. destruct (truthy k) eqn:E; [exact E |].
    apply truthy_append_r, truthy_append_r, truthy_append_r. reflexivity. }
  assert (Hc : forall x, truthy (if truthy c then c else x +:+ "/" +:+ n +:+ ".crt") = true).
  { intros x. destruct (truthy c) eqn:E; [exact E |].
    apply truthy_append_r, truthy_append_r, truthy_append_r. reflexivity. }
  split_and!; try done.
  - destruct (truthy ca) eqn:E; [exact E | apply Hc].
  - by intros ->.
  - by intros ->.
  - by intros ->.
  - by intros ->.
  - by intros ->.
  - by intros ->.
  - intros -> ->. apply key_file_not_cert_file.
Qed.

(** * Further properties of saving and loading *)

#[export] Instance off_path_preorder p : PreOrder (off_path p).
Proof.
  split.
  - intros w. reflexivity.
  - intros w1 w2 w3 H1 H2. unfold off_path in *. congruence.
Qed.

Lemma open_w_off_path p0 p : p ≠ p0 -> keeps (off_path p) (open_w p0).
Proof.
  intros Hp w. unfold off_path, open_w, bind, get_fs, put_fs, raise.
  destruct (fs w !! p0) as [[m | m d] |]; simpl; trivial.
  - destruct (writable m); simpl; trivial. by rewrite lookup_insert_ne.
  - destruct (fs w !! dirname p0) as [[m | m d] |]; simpl; trivial.
    destruct (writable m); simpl; trivial. by rewrite lookup_insert_ne.
Qed.

Lemma fh_write_off_path p0 data p : p ≠ p0 -> keeps (off_path p) (fh_write p0 data).
Proof.
  intros Hp w. unfold off_path, fh_write, bind, get_fs, put_fs, ret.
  destruct (fs w !! p0) as [[m | m d] |]; simpl; trivial.
  by rewrite lookup_insert_ne.
Qed.

Lemma print_off_path line p : keeps (off_path p) (print line).
Proof. intros w. reflexivity. Qed.

Lemma store_save_done (w : World) :
  let file_path := slash (store_dir (self w)) (record_file (self w)) in
  let out := JObj [("serial", JInt (serial (self w)));
                   ("cert_info", certs_json (certs (self w)))] in
  (open_w file_path w).1 = Val tt ->
  exists m,
    store_save w =
      (Val tt,
       set_fs (<[file_path := File m (JsonDoc out)]>
                 (<[file_path := File m (Raw "")]> (fs w))) w).
Proof.
  intros file_path out Hopen.
  destruct (open_w file_path w) as [r w0] eqn:Eo. simpl in Hopen. subst r.
  destruct (open_w_val _ _ _ Eo) as (m & -> & _). exists m.
  unfold store_save. rewrite bind_eq. cbn [get_self]. fold file_path.
  unfold try_except. rewrite bind_eq, Eo. unfold fh_write.
  rewrite bind_eq. cbn [get_fs set_fs fs]. by rewrite lookup_insert_eq.
Qed.

(** X4.  [store_save] changes nothing in the object and no file but the
    record file, however it ends; when the record file can be opened for
    writing it returns without printing, and the record file then holds
    the JSON object of the serial and of the records. *)
Theorem store_save_effect (w : World) :
  let file_path := slash (store_dir (self w)) (record_file (self w)) in
  let doc := JObj [("serial", JInt (serial (self w)));
                   ("cert_info", certs_json (certs (self w)))] in
  self (store_save w).2 = self w /\
  (forall p, p ≠ file_path -> fs (store_save w).2 !! p = fs w !! p) /\
  ((open_w file_path w).1 = Val tt ->
   (store_save w).1 = Val tt /\ stdout (store_save w).2 = stdout w /\
   exists m, fs (store_save w).2 !! file_path = Some (File m (JsonDoc doc))).
Proof.
  intros file_path doc. split_and!.
  - apply store_save_quiet.
  - intros p Hp. unfold store_save. rewrite bind_eq. cbn [get_self].
    fold file_path. fold doc.
    apply (keeps_try (off_path p)).
    + apply keeps_bind; [typeclasses eauto | by apply open_w_off_path |].
      intros _. by apply fh_write_off_path.
    + intros e k Hk. destruct e; try discriminate Hk.
      injection Hk as <-. apply print_off_path.
  - intros Hopen. destruct (store_save_done w Hopen) as [m ->].
    split_and!; [done | done |]. exists m. simpl. by rewrite lookup_insert_eq.
Qed.

Lemma open_r_val p m data w :
  fs w !! p = Some (File m data) -> readable m = true ->
  open_r p w = (Val data, w).
Proof.
  intros Hf Hr. unfold open_r. rewrite bind_eq. cbn [get_fs]. by rewrite Hf, Hr.
Qed.

Lemma open_r_raise p e w w' : open_r p w = (Raise e, w') -> w' = w.
Proof. intros E. by apply open_r_inv in E as [-> _]. Qed.

(** With a record file that can be read, [store_load] is its [with] block
    on the text of the file, under its three handlers. *)
Lemma store_load_reads (w : World) (m : N) (data : content) :
  let file_path := slash (store_dir (self w)) (record_file (self w)) in
  fs w !! file_path = Some (File m data) -> readable m = true ->
  store_load w =
    match load_document data w with
    | (Raise TypeError, w1) => print [PStr "Problems loading store:"; PExn TypeError] w1
    | (Raise ValueError, w1) => print [PStr "Problems loading store:"; PExn ValueError] w1
    | (Raise FileNotFoundError, w1) =>
        (print [PStr ("No store file at " +:+ file_path +:+ ". Creating a new one.")] ;;;
         makedirs (store_dir (self w)) (oct 7 5 5)) w1
    | out => out
    end.
Proof.
  intros file_path Hf Hr. unfold store_load. rewrite bind_eq. cbn [get_self].
  fold file_path. unfold try_except. rewrite bind_eq.
  rewrite (open_r_val _ _ _ _ Hf Hr).
  destruct (load_document data w) as [[[] | [] |] w1]; reflexivity.
Qed.

(** X5.  When the record file is not there, [store_load] prints that it
    makes a new one and creates the store directory; the serial and the
    records of the object stay as they are. *)
Theorem store_load_missing_file (w : World) :
  let file_path := slash (store_dir (self w)) (record_file (self w)) in
  (open_r file_path w).1 = Raise FileNotFoundError ->
  store_load w =
    makedirs (store_dir (self w)) (oct 7 5 5)
      (printed [PStr ("No store file at " +:+ file_path +:+ ". Creating a new one.")] w) /\
  self (store_load w).2 = self w.
Proof.
  intros file_path Ho.
  assert (E : store_load w =
    makedirs (store_dir (self w)) (oct 7 5 5)
      (printed [PStr ("No store file at " +:+ file_path +:+ ". Creating a new one.")] w)).
  { unfold store_load. rewrite bind_eq. cbn [get_self]. fold file_path.
    unfold try_except. rewrite bind_eq.
    destruct (open_r file_path w) as [r w0] eqn:Eo. simpl in Ho. subst r.
    apply open_r_raise in Eo as ->. by rewrite bind_eq. }
  split; [exact E |]. rewrite E.
  by destruct (makedirs_quiet (store_dir (self w)) (oct 7 5 5)
                 (printed [PStr ("No store file at " +:+ file_path +:+ ". Creating a new one.")] w))
    as [-> _].
Qed.

Lemma store_load_missing_file_witness :
  let w := set_self (set_serial 5 (self no_dir_world)) no_dir_world in
  (open_r "out/store.json" w).1 = Raise FileNotFoundError /\
  (store_load w).1 = Val tt /\
  serial (self (store_load w).2) = 5 /\
  fs (store_load w).2 !! "out" = Some (Dir (oct 7 5 5)).
Proof.
  intros w.
  assert (Ho : (open_r (slash (store_dir (self w)) (record_file (self w))) w).1
               = Raise FileNotFoundError) by (vm_compute; reflexivity).
  destruct (store_load_missing_file w Ho) as [E Hs].
  split; [exact Ho |]. split; [vm_compute; reflexivity |].
  split; [rewrite Hs; reflexivity | vm_compute; reflexivity].
Defined.

(** X6.  A record file that holds no JSON document, or a document that is
    no object, is reported and not raised: [store_load] prints the problem
    ([ValueError] or [TypeError]) and returns, and nothing else changes. *)
Theorem store_load_reports (w : World) (m : N) (data : content) (e : exn) :
  fs w !! slash (store_dir (self w)) (record_file (self w)) = Some (File m data) ->
  readable m = true ->
  document_error data = Some e ->
  store_load w = (Val tt, printed [PStr "Problems loading store:"; PExn e] w).
Proof.
  intros Hf Hr He. rewrite (store_load_reads w m data Hf Hr).
  destruct data as [text | [| b | z | l | s | items | top] | k | c];
    simpl in He; try discriminate He; injection He as <-; reflexivity.
Qed.

Lemma store_load_reports_witness :
  let w := set_fs (<["out/store.json" := File (oct 6 4 4) (Raw "not json")]>
                     (fs merge_world)) merge_world in
  document_error (Raw "not json") = Some ValueError /\
  store_load w = (Val tt, printed [PStr "Problems loading store:"; PExn ValueError] w).
Proof.
  intros w. split; [reflexivity |].
  apply (store_load_reports w (oct 6 4 4) (Raw "not json") ValueError);
    reflexivity.
Defined.

(** X7.  A record file whose object lacks ["serial"] makes [store_load]
    raise [KeyError] with nothing changed; one that has an integer serial
    and lacks ["cert_info"] makes it raise [KeyError] after the serial of
    the object has been overwritten; one whose ["cert_info"] is no object
    makes it raise [AttributeError], the serial overwritten too. *)
Theorem store_load_raises (w : World) (m : N) (top : list (string * json)) :
  fs w !! slash (store_dir (self w)) (record_file (self w))
    = Some (File m (JsonDoc (JObj top))) ->
  readable m = true ->
  (dict_get "serial" top = None -> store_load w = (Raise KeyError, w)) /\
  (forall z, dict_get "serial" top = Some (JInt z) ->
     dict_get "cert_info" top = None ->
     store_load w = (Raise KeyError, set_self (set_serial z (self w)) w)) /\
  (forall z j, dict_get "serial" top = Some (JInt z) ->
     dict_get "cert_info" top = Some j -> (forall items, j ≠ JObj items) ->
     store_load w = (Raise AttributeError, set_self (set_serial z (self w)) w)).
Proof.
  intros Hf Hr. rewrite (store_load_reads w m _ Hf Hr). unfold load_document.
  split_and!.
  - by intros ->.
  - intros z -> Hc. rewrite !bind_eq. cbn [get_self put_self]. by rewrite Hc.
  - intros z j -> Hc Hj. rewrite !bind_eq. cbn [get_self put_self]. rewrite Hc.
    destruct j; try reflexivity. by destruct (Hj items).
Qed.

Lemma store_load_raises_witness :
  let w := set_fs (<["out/store.json" :=
                       File (oct 6 4 4) (JsonDoc (JObj [("serial", JInt 9)]))]>
                     (fs merge_world)) merge_world in
  (store_load w).1 = Raise KeyError /\
  serial (self w) = 3 /\ serial (self (store_load w).2) = 9.
Proof.
  intros w.
  destruct (store_load_raises w (oct 6 4 4) [("serial", JInt 9)] eq_refl eq_refl)
    as (_ & Hmiss & _).
  rewrite (Hmiss 9 eq_refl eq_refl). repeat split.
Defined.

(** Loading the entries [store_save] writes for [good], then [tail]. *)
Lemma load_items_saved_then (good : list (string * KeyCertPair))
    (tail : list (string * json)) (w : World) :
  load_items (map (fun kv => (kv.1, info_json kv.2)) good ++ tail) w =
  load_items tail
    (set_self
       (set_certs (foldl (fun m kv => <[kv.1 := kv.2]> m) (certs (self w)) good)
          (self w))
       w).
Proof.
  revert w. induction good as [| [k r] good IH]; intros w.
  - simpl. f_equal. by destruct w as [[] ? ? ? ? ?].
  - cbn [map app load_items fst snd foldl]. rewrite bind_eq. unfold lift.
    rewrite KeyCertPair_unpack_info_json.
    rewrite bind_eq. unfold set_cert at 1. rewrite bind_eq.
    cbn [get_self put_self]. rewrite IH. reflexivity.
Qed.

(** X8.  [store_load] does not roll back: when an entry of ["cert_info"]
    cannot be made a record ([TypeError]), the serial of the file and the
    entries before it are in the object, the entries after it are not
    read, the problem is printed and the call returns. *)
Theorem store_load_partial (w : World) (m : N) (top : list (string * json))
    (z : Z) (good : list (string * KeyCertPair)) (k : string) (bad : json)
    (rest : list (string * json)) :
  fs w !! slash (store_dir (self w)) (record_file (self w))
    = Some (File m (JsonDoc (JObj top))) ->
  readable m = true ->
  dict_get "serial" top = Some (JInt z) ->
  dict_get "cert_info" top
    = Some (JObj (map (fun kv => (kv.1, info_json kv.2)) good ++ (k, bad) :: rest)) ->
  KeyCertPair_unpack bad = Raise TypeError ->
  store_load w =
    (Val tt,
     printed [PStr "Problems loading store:"; PExn TypeError]
       (with_store (foldl (fun c kv => <[kv.1 := kv.2]> c) (certs (self w)) good) z w)).
Proof.
  intros Hf Hr Hs Hc Hbad. rewrite (store_load_reads w m _ Hf Hr).
  unfold load_document. rewrite Hs. rewrite !bind_eq. cbn [get_self put_self].
  rewrite Hc. cbv beta iota. rewrite bind_eq. cbn [put_self].
  rewrite load_items_saved_then. cbn [load_items]. rewrite bind_eq.
  unfold lift. rewrite Hbad. reflexivity.
Qed.

Lemma store_load_partial_witness :
  let out := store_load broken_entry_world in
  out.1 = Val tt /\
  serial (self out.2) = 7 /\
  dom (certs (self out.2)) = {[ "old"; "new" ]} /\
  stdout out.2 = [[PStr "Problems loading store:"; PExn TypeError]].
Proof.
  intros out. subst out.
  rewrite (store_load_partial broken_entry_world (oct 6 4 4)
             [("serial", JInt 7);
              ("cert_info",
               JObj [("new", info_json (mkKeyCertPair "new" "out/new" "out/new/new.key"
                                          "out/new/new.crt" "out/new/new.crt"));
                     ("bad", JArr [JStr "bad"; JStr "out/bad"; JStr "k"; JStr "c"]);
                     ("late", info_json (mkKeyCertPair "late" "out/late"
                                           "out/late/late.key" "out/late/late.crt"
                                           "out/late/late.crt"))])]
             7
             [("new", mkKeyCertPair "new" "out/new" "out/new/new.key"
                        "out/new/new.crt" "out/new/new.crt")]
             "bad" (JArr [JStr "bad"; JStr "out/bad"; JStr "k"; JStr "c"])
             [("late", info_json (mkKeyCertPair "late" "out/late" "out/late/late.key"
                                    "out/late/late.crt" "out/late/late.crt"))]
             eq_refl eq_refl eq_refl eq_refl eq_refl).
  split; [reflexivity |]. split; [reflexivity |].
  split; [vm_compute; reflexivity | reflexivity].
Defined.

Lemma foldl_insert_union (c1 c2 : gmap string KeyCertPair) :
  foldl (fun acc kv => <[kv.1 := kv.2]> acc) c1 (map_to_list c2) = c2 ∪ c1.
Proof.
  apply map_eq. intros k.
  rewrite foldl_insert_lookup by apply NoDup_fst_map_to_list.
  rewrite list_to_map_to_list, lookup_union.
  destruct (c2 !! k), (c1 !! k); reflexivity.
Qed.

(** X9.  Loading a file that was saved from the records [c] and the serial
    [z] into an object that has records of its own merges them: the
    records of the file are all there, the records of the object stay
    where the file has none under their name, and the serial becomes the
    one of the file, whatever it was. *)
Theorem store_load_merges (w : World) (m : N) (top : list (string * json))
    (z : Z) (c : gmap string KeyCertPair) :
  fs w !! slash (store_dir (self w)) (record_file (self w))
    = Some (File m (JsonDoc (JObj top))) ->
  readable m = true ->
  dict_get "serial" top = Some (JInt z) ->
  dict_get "cert_info" top = Some (certs_json c) ->
  store_load w = (Val tt, with_store (c ∪ certs (self w)) z w).
Proof.
  intros Hf Hr Hs Hc. rewrite (store_load_reads w m _ Hf Hr).
  unfold load_document. rewrite Hs. rewrite !bind_eq. cbn [get_self put_self].
  rewrite Hc. unfold certs_json. rewrite bind_eq. cbn [put_self].
  rewrite load_items_saved.
  cbn [self set_self certs set_certs set_serial]. rewrite foldl_insert_union.
  reflexivity.
Qed.

Lemma store_load_merges_witness :
  let out := store_load merge_world in
  out.1 = Val tt /\ serial (self out.2) = 7 /\
  dom (certs (self out.2)) = {[ "old"; "new" ]}.
Proof.
  intros out. subst out.
  rewrite (store_load_merges merge_world (oct 6 4 4)
             [("serial", JInt 7);
              ("cert_info",
               JObj [("new", JArr [JStr "new"; JStr "out/new"; JStr "out/new/new.key";
                                   JStr "out/new/new.crt"; JStr "out/new/new.crt"])])]
             7
             {[ "new" := mkKeyCertPair "new" "out/new" "out/new/new.key"
                           "out/new/new.crt" "out/new/new.crt" ]}).
  - split; [reflexivity |]. split; [reflexivity |]. vm_compute. reflexivity.
  - reflexivity.
  - reflexivity.
  - reflexivity.
  - vm_compute. reflexivity.
Defined.

(** * Further properties of signing and issuance *)

Section SigningEdges.
Context `{OpenSSL}.


End SigningEdges.


#[export] Instance silent_preorder : PreOrder silent.
Proof.
  split.
  - intros w. reflexivity.
  - intros w1 w2 w3 H1 H2. unfold silent in *. congruence.
Qed.

Lemma mkdir_exist_ok_silent leaf d mode : keeps silent (mkdir_exist_ok leaf d mode).
Proof.
  intros w. unfold silent, mkdir_exist_ok, bind, get_fs, put_fs, raise, ret.
  destruct (fs w !! d) as [[m | m x] |]; simpl; trivial.
  destruct (fs w !! dirname d) as [[m | m x] |]; simpl; trivial.
  by destruct (writable m).
Qed.

Lemma makedirs_silent p mode : keeps silent (makedirs p mode).
Proof.
  unfold makedirs. induction (dir_chain p) as [| d rest IH]; simpl.
  - by intros w.
  - destruct rest as [| d' rest'].
    + apply mkdir_exist_ok_silent.
    + apply keeps_bind; [typeclasses eauto | apply mkdir_exist_ok_silent | by intros _].
Qed.

Lemma try_except_val_inv {A} (m : M A) (h : exn -> option (M A)) w a w' :
  try_except m h w = (Val a, w') ->
  m w = (Val a, w') \/
  exists e w1 k, m w = (Raise e, w1) /\ h e = Some k /\ k w1 = (Val a, w').
Proof.
  unfold try_except. destruct (m w) as [[a0 | e |] w1]; intros E.
  - by left.
  - destruct (h e) as [k |] eqn:Ek; [| discriminate]. right. by exists e, w1, k.
  - discriminate.
Qed.

Lemma fh_write_after_open p m old data f w :
  fs w = <[p := File m old]> f ->
  fh_write p data w = (Val tt, set_fs (<[p := File m data]> f) w).
Proof.
  intros Hf. unfold fh_write. rewrite bind_eq. cbn [get_fs].
  rewrite Hf, lookup_insert_eq. cbn [put_fs]. by rewrite insert_insert_eq.
Qed.

Lemma chmod_file_val p mode w w' m data :
  fs w !! p = Some (File m data) ->
  chmod p mode w = (Val tt, w') ->
  w' = set_fs (<[p := File mode data]> (fs w)) w.
Proof.
  intros Hf. unfold chmod. rewrite bind_eq. cbn [get_fs]. rewrite Hf.
  by intros [= <-].
Qed.

(** What a call of [write_key_cert_pair] that returns a record has done. *)
Lemma write_key_cert_pair_val (name : string) (key : PKey) (cert : X509)
    (signing_cert : string) (w w' : World) (r : KeyCertPair) :
  write_key_cert_pair name key cert signing_cert w = (Val (Some r), w') ->
  r = key_cert_pair_for_name (self w) name "" "" "" signing_cert /\
  certs (self w') = <[name := r]> (certs (self w)) /\
  serial (self w') = serial (self w) /\
  fs w' !! key_file r = Some (File (oct 6 0 0) (PemKey key)) /\
  fs w' !! cert_file r = Some (File (oct 6 4 4) (PemCert cert)) /\
  stdout w' = stdout w.
Proof.
  unfold write_key_cert_pair. intros E.
  apply try_except_val_inv in E as [E | (e & w1 & k & _ & Hk & E)]; cycle 1.
  { destruct e; try discriminate Hk. injection Hk as <-.
    rewrite bind_eq in E. simpl in E. discriminate E. }
  rewrite bind_eq in E. cbn [get_self] in E.
  set (ci := key_cert_pair_for_name (self w) name "" "" "" signing_cert) in *.
  assert (Hne : key_file ci ≠ cert_file ci) by apply key_file_not_cert_file.
  apply bind_val_inv in E as ([] & w2 & Emk & E).
  pose proof (makedirs_quiet (dir_name ci) (oct 7 5 5) w) as [Hs2 _].
  pose proof (makedirs_silent (dir_name ci) (oct 7 5 5) w) as Ho2.
  rewrite Emk in Hs2, Ho2. simpl in Hs2. unfold silent in Ho2. simpl in Ho2.
  apply bind_val_inv in E as ([] & w3 & Eok & E).
  apply open_w_val in Eok as (mk & -> & _).
  rewrite bind_eq in E.
  rewrite (fh_write_after_open (key_file ci) mk (Raw "") (PemKey key) (fs w2)) in E
    by reflexivity.
  apply bind_val_inv in E as ([] & w5 & Eoc & E).
  apply open_w_val in Eoc as (mc & -> & _).
  rewrite bind_eq in E.
  rewrite (fh_write_after_open (cert_file ci) mc (Raw "") (PemCert cert)
             (<[key_file ci := File mk (PemKey key)]> (fs w2))) in E by reflexivity.
  apply bind_val_inv in E as ([] & w7 & Eck & E).
  apply (chmod_file_val _ _ _ _ mk (PemKey key)) in Eck; cycle 1.
  { simpl. rewrite lookup_insert_ne by done. by rewrite lookup_insert_eq. }
  subst w7.
  apply bind_val_inv in E as ([] & w8 & Ecc & E).
  apply (chmod_file_val _ _ _ _ mc (PemCert cert)) in Ecc; cycle 1.
  { simpl. rewrite lookup_insert_ne by done. by rewrite lookup_insert_eq. }
  subst w8.
  rewrite bind_eq in E. unfold store_add, set_cert in E. rewrite bind_eq in E.
  cbn [get_self put_self ret] in E. injection E as <- <-.
  cbn [self set_self set_fs fs certs set_certs serial stdout]. rewrite Hs2.
  split_and!; try done.
  - rewrite lookup_insert_ne by done. by rewrite lookup_insert_eq.
  - by rewrite lookup_insert_eq.
Qed.

(** X11.  When [write_key_cert_pair] returns a record, that record has the
    default paths of the name, it is in the dictionary under the name, the
    key file holds the key with mode [0o600] and the certificate file holds
    the certificate with mode [0o644]; nothing was printed and the serial
    is as before. *)
Theorem write_key_cert_pair_done (name : string) (key : PKey) (cert : X509)
    (signing_cert : string) (w w' : World) (r : KeyCertPair) :
  write_key_cert_pair name key cert signing_cert w = (Val (Some r), w') ->
  r = key_cert_pair_for_name (self w) name "" "" "" signing_cert /\
  certs (self w') = <[name := r]> (certs (self w)) /\
  serial (self w') = serial (self w) /\
  fs w' !! key_file r = Some (File (oct 6 0 0) (PemKey key)) /\
  fs w' !! cert_file r = Some (File (oct 6 4 4) (PemCert cert)) /\
  stdout w' = stdout w.
Proof. apply write_key_cert_pair_val. Qed.

Lemma write_key_cert_pair_done_witness :
  let key := mkPKey TYPE_RSA 2048 0 false in
  let out := write_key_cert_pair "web1" key X509_new "" fresh_world in
  exists r,
    out = (Val (Some r), out.2) /\
    fs out.2 !! "out/web1/web1.key" = Some (File (oct 6 0 0) (PemKey key)) /\
    fs out.2 !! "out/web1/web1.crt" = Some (File (oct 6 4 4) (PemCert X509_new)) /\
    certs (self out.2) !! "web1" = Some r.
Proof.
  intros key out. eexists.
  assert (E : out = (Val (Some _), out.2)) by (vm_compute; reflexivity).
  destruct (write_key_cert_pair_done "web1" key X509_new "" fresh_world out.2 _ E)
    as (_ & Hc & _ & Hk & Hcf & _).
  split; [exact E |]. split; [exact Hk |]. split; [exact Hcf |].
  rewrite Hc. apply lookup_insert_eq.
Defined.

#[export] Instance calm_preorder : PreOrder calm.
Proof.
  split.
  - intros w. by repeat split.
  - intros w1 w2 w3 (A1 & B1 & C1 & D1 & E1) (A2 & B2 & C2 & D2 & E2).
    repeat split; congruence.
Qed.

Lemma lift_world {A} (r : result A) w out w1 : lift r w = (out, w1) -> w1 = w.
Proof. by intros [= _ <-]. Qed.

(** A step that moves nothing but the count of keys since [w0], then [f],
    for a property [Q] that holds of every call that stops there. *)
Lemma step_calm {A B} (m : M A) (f : A -> M B) (w0 w : World)
    (Q : result B * World -> Prop) :
  keeps calm m -> calm w0 w ->
  (forall (r : result B) w1, calm w0 w1 -> is_val r = false -> Q (r, w1)) ->
  (forall a w1, m w = (Val a, w1) -> calm w0 w1 -> Q (f a w1)) ->
  Q (bind m f w).
Proof.
  intros Hm Hw Hstop Hf. specialize (Hm w).
  assert (Hw1 : calm w0 (m w).2) by (etransitivity; eauto).
  apply bind_elim; intros; match goal with E : m w = _ |- _ => rewrite E in Hw1 end;
    eauto.
Qed.

Section Certificates.
Context `{OpenSSL}.

Lemma create_key_pair_calm cert_type bits : keeps calm (create_key_pair cert_type bits).
Proof.
  intros w. unfold create_key_pair.
  destruct (generate_key_error cert_type bits); by repeat split.
Qed.

Lemma create_key_pair_val cert_type bits w k w1 :
  create_key_pair cert_type bits w = (Val k, w1) ->
  k = mkPKey cert_type bits (next_key w) false.
Proof.
  unfold create_key_pair. destruct (generate_key_error cert_type bits); [discriminate |].
  by intros [= <- _].
Qed.

Lemma create_request_calm pkey digest name : keeps calm (create_request pkey digest name).
Proof.
  intros w. unfold create_request. rewrite bind_eq. unfold lift.
  destruct (set_name_items [] name) as [subj | e |]; try by repeat split.
  destruct (sign_error pkey digest); by repeat split.
Qed.

Lemma create_request_common_name pkey digest cn w req w1 :
  create_request pkey digest [("CN", cn)] w = (Val req, w1) ->
  req_subject req = [("CN", cn)] /\ req_pubkey req = Some (public_part pkey).
Proof.
  unfold create_request. rewrite bind_eq. unfold lift. cbn [set_name_items].
  destruct (name_attr_error "CN" cn); [discriminate |].
  destruct (sign_error pkey digest); [discriminate |].
  by intros [= <- _].
Qed.

Lemma append_alt_names_calm alt_names exts : keeps calm (append_alt_names alt_names exts).
Proof.
  intros w. unfold append_alt_names. destruct (truthy alt_names); [| by repeat split].
  rewrite bind_eq. unfold lift.
  destruct (X509Extension_new "subjectAltName" false alt_names None None);
    by repeat split.
Qed.

Lemma lift_calm {A} (r : result A) : keeps calm (lift r).
Proof. intros w. by repeat split. Qed.

(** A call of [sign] that does not return leaves the history alone. *)
Lemma sign_no_certificate {I} `{HasSubject I} (req : X509Req) (ick : I * PKey)
    (vp : Z * Z) (digest : string) (exts : list ext_arg) (w : World) :
  is_val (sign req ick vp digest exts w).1 = false ->
  issued (sign req ick vp digest exts w).2 = issued w.
Proof.
  destruct ick as [ic ik], vp as [nb na].
  unfold sign, bind, get_self, lift, get_pubkey, put_self, X509_sign,
    record_issued, ret. simpl.
  destruct (req_pubkey req) as [pk |]; simpl; [| done].
  match goal with
  | |- context [add_each exts ?b] => destruct (add_each exts b) as [c1 | x |]
  end; simpl; try done.
  destruct (sign_error ik digest); simpl; done.
Qed.

(** What [sign] and the steps after it leave in the history. *)
Lemma sign_then_steady {I} `{HasSubject I} {B} (req : X509Req) (issuer_cert : I)
    (issuer_key : PKey) (nb na : Z) (exts : list ext_arg) (k : X509 -> M B)
    (w : World) (new : list X509) :
  (forall c, keeps steady (k c)) ->
  issued (bind (sign req (issuer_cert, issuer_key) (nb, na) "sha256" exts) k w).2
    = issued w ++ new ->
  Forall (fun c =>
    exists pk es,
      req_pubkey req = Some pk /\
      c = set_signature (mkSignature (key_id issuer_key) "sha256")
            (add_extensions es
               (sign_base (serial (self w)) (clock w) nb na
                  (get_subject issuer_cert) (req_subject req) pk))) new.
Proof.
  intros Hk. rewrite bind_eq.
  pose proof (sign_no_certificate req (issuer_cert, issuer_key) (nb, na) "sha256" exts w)
    as Hno.
  destruct (sign req (issuer_cert, issuer_key) (nb, na) "sha256" exts w)
    as [[cert | e |] w1] eqn:Es.
  - specialize (Hk cert w1). unfold steady, view in Hk. injection Hk as _ Hi.
    rewrite Hi.
    apply sign_val_inv in Es as (pk & c1 & Hpk & Hadd & _ & -> & ->).
    apply add_each_app in Hadd as (es & -> & _).
    simpl. intros Hnew. apply app_inv_head in Hnew as <-.
    constructor; [| constructor]. by exists pk, es.
  - simpl in *. rewrite (Hno eq_refl). intros Hnew.
    rewrite <- (app_nil_r (issued w)) in Hnew at 1.
    apply app_inv_head in Hnew as <-. constructor.
  - simpl in *. rewrite (Hno eq_refl). intros Hnew.
    rewrite <- (app_nil_r (issued w)) in Hnew at 1.
    apply app_inv_head in Hnew as <-. constructor.
Qed.

Lemma load_key_cert_pair_val name w k c w1 :
  load_key_cert_pair name w = (Val (Some (k, c)), w1) ->
  w1 = w /\
  exists X mk mc,
    certs (self w) !! name = Some X /\
    fs w !! key_file X = Some (File mk (PemKey k)) /\
    fs w !! cert_file X = Some (File mc (PemCert c)).
Proof.
  unfold load_key_cert_pair. intros E.
  apply try_except_val_inv in E as [E | (e & w2 & h & _ & Hh & E)]; cycle 1.
  { destruct e; try discriminate Hh. injection Hh as <-.
    rewrite bind_eq in E. simpl in E. discriminate E. }
  rewrite bind_eq, store_get_eq in E.
  destruct (certs (self w) !! name) as [X |] eqn:HX; [| discriminate E].
  apply bind_val_inv in E as (tk & w2 & Ek & E).
  apply open_r_inv in Ek as [-> Hk]. destruct (Hk tk eq_refl) as [mk Hfk].
  apply bind_val_inv in E as (k' & w3 & Elk & E).
  pose proof (lift_world _ _ _ _ Elk) as ->.
  apply bind_val_inv in E as (tc & w4 & Ec & E).
  apply open_r_inv in Ec as [-> Hc]. destruct (Hc tc eq_refl) as [mc Hfc].
  apply bind_val_inv in E as (c' & w5 & Elc & E).
  pose proof (lift_world _ _ _ _ Elc) as ->.
  injection E as <- <- <-. split; [done |].
  exists X, mk, mc. split; [done |].
  unfold lift, load_privatekey in Elk. unfold lift, load_certificate in Elc.
  destruct tk; try discriminate Elk. destruct tc; try discriminate Elc.
  injection Elk as ->. injection Elc as ->. done.
Qed.



End Certificates.



Lemma open_r_same_fs p w w1 : fs w1 = fs w -> (open_r p w1).1 = (open_r p w).1.
Proof.
  intros Hf. unfold open_r. rewrite !bind_eq. cbn [get_fs]. rewrite Hf.
  destruct (fs w !! p) as [[m | m d] |]; try reflexivity.
  by destruct (readable m).
Qed.

Section MissingFiles.
Context `{OpenSSL}.

Lemma load_key_cert_pair_missing name X w :
  certs (self w) !! name = Some X ->
  (open_r (key_file X) w).1 = Raise FileNotFoundError \/
  (exists mk k, fs w !! key_file X = Some (File mk (PemKey k)) /\
                readable mk = true /\
                (open_r (cert_file X) w).1 = Raise FileNotFoundError) ->
  load_key_cert_pair name w =
    (Val None, printed [PStr "Could not load file:"; PExn FileNotFoundError] w).
Proof.
  intros HX Hmiss. unfold load_key_cert_pair, try_except.
  rewrite bind_eq, store_get_eq, HX.
  destruct Hmiss as [Hk | (mk & k & Hfk & Hrk & Hc)].
  - rewrite bind_eq. destruct (open_r (key_file X) w) as [r w1] eqn:Eo.
    simpl in Hk. subst r. apply open_r_raise in Eo as ->. reflexivity.
  - rewrite bind_eq, (open_r_val _ _ _ _ Hfk Hrk). rewrite bind_eq.
    unfold lift at 1. cbn [load_privatekey]. rewrite bind_eq.
    destruct (open_r (cert_file X) w) as [r w1] eqn:Eo.
    simpl in Hc. subst r. apply open_r_raise in Eo as ->. reflexivity.
Qed.

(** X14.  When the CA is in the store and its key file, or its certificate
    file, is not on the disk, [create_signed_pair] does not return: it
    raises.  The object, the files and the history are as before; either
    the binding stopped the call before the CA was read and nothing was
    printed, or the missing file was printed and the call raised
    [TypeError]. *)
Theorem create_signed_pair_missing_files (name ca_name : string)
    (cert_type bits years : Z) (alt_names : string) (X : KeyCertPair) (w : World) :
  certs (self w) !! ca_name = Some X ->
  (open_r (key_file X) w).1 = Raise FileNotFoundError \/
  (exists mk k, fs w !! key_file X = Some (File mk (PemKey k)) /\
                readable mk = true /\
                (open_r (cert_file X) w).1 = Raise FileNotFoundError) ->
  let out := create_signed_pair name ca_name cert_type bits years alt_names w in
  is_val out.1 = false /\
  self out.2 = self w /\ fs out.2 = fs w /\ issued out.2 = issued w /\
  (stdout out.2 = stdout w \/
   (out.1 = Raise TypeError /\
    stdout out.2 = stdout w ++ [[PStr "Could not load file:"; PExn FileNotFoundError]])).
Proof.
  intros HX Hmiss.
  set (Q := fun out : result (option KeyCertPair) * World =>
    is_val out.1 = false /\
    self out.2 = self w /\ fs out.2 = fs w /\ issued out.2 = issued w /\
    (stdout out.2 = stdout w \/
     (out.1 = Raise TypeError /\
      stdout out.2 = stdout w ++ [[PStr "Could not load file:"; PExn FileNotFoundError]]))).
  change (Q (create_signed_pair name ca_name cert_type bits years alt_names w)).
  assert (Hstop : forall (r : result (option KeyCertPair)) w1,
            calm w w1 -> is_val r = false -> Q (r, w1)).
  { intros r w1 (Hs & Hf & Ho & Hi & _) Hr. unfold Q. simpl. split_and!; try done.
    by left. }
  unfold create_signed_pair.
  apply (step_calm _ _ w); [apply create_key_pair_calm | reflexivity | exact Hstop |].
  intros key w1 _ H1.
  apply (step_calm _ _ w); [apply create_request_calm | done | exact Hstop |].
  intros req w2 _ H2.
  apply (step_calm _ _ w); [apply lift_calm | done | exact Hstop |]. intros e1 w3 _ H3.
  apply (step_calm _ _ w); [apply append_alt_names_calm | done | exact Hstop |].
  intros exts w4 _ (Hs4 & Hf4 & Ho4 & Hi4 & _).
  rewrite bind_eq, (load_key_cert_pair_missing ca_name X w4).
  - unfold Q. simpl. split_and!; try done. right. by rewrite Ho4.
  - by rewrite Hs4.
  - destruct Hmiss as [Hk | (mk & k & Hfk & Hrk & Hc)].
    + left. by rewrite (open_r_same_fs _ w w4).
    + right. exists mk, k. rewrite Hf4. split_and!; try done.
      by rewrite (open_r_same_fs _ w w4).
Qed.

End MissingFiles.

(** X14 at work: the key file of the CA ["root"] has gone. *)
Lemma create_signed_pair_missing_files_witness :
  let HO := plain_openssl in
  let out := create_signed_pair "svc" "root" TYPE_RSA 2048 5 "" keyless_world in
  is_Some (certs (self keyless_world) !! "root") /\
  out.1 = Raise TypeError /\
  serial (self out.2) = 1 /\
  stdout out.2 = [[PStr "Could not load file:"; PExn FileNotFoundError]].
Proof.
  intros HO out.
  assert (HX : certs (self keyless_world) !! "root"
               = Some (mkKeyCertPair "root" "out/root" "out/root/root.key"
                         "out/root/root.crt" "out/root/root.crt"))
    by (vm_compute; reflexivity).
  destruct (create_signed_pair_missing_files "svc" "root" TYPE_RSA 2048 5 "" _
              keyless_world HX) as (_ & Hs & _ & _ & _).
  { left. vm_compute. reflexivity. }
  split; [rewrite HX; eauto |]. split; [vm_compute; reflexivity |].
  split; [fold out in Hs; rewrite Hs; vm_compute; reflexivity | vm_compute; reflexivity].
Defined.

(** * Further properties of the records *)

Lemma ca_file_truthy s n d k c ca :
  truthy (ca_file (key_cert_pair_for_name s n d k c ca)) = true.
Proof.
  unfold key_cert_pair_for_name. cbn [ca_file].
  destruct (truthy ca) eqn:Eca; [exact Eca |].
  destruct (truthy c) eqn:Ec; [exact Ec |].
  apply truthy_append_r, truthy_append_r, truthy_append_r. reflexivity.
Qed.

Lemma anchored_insert c n r :
  anchored c -> truthy (ca_file r) = true -> anchored (<[n := r]> c).
Proof.
  intros Hc Hr n' r'. destruct (decide (n = n')) as [-> | Hne].
  - rewrite lookup_insert_eq. by intros [= <-].
  - rewrite lookup_insert_ne by done. apply Hc.
Qed.

Lemma anchored_delete c n : anchored c -> anchored (delete n c).
Proof.
  intros Hc n' r'. destruct (decide (n = n')) as [-> | Hne].
  - by rewrite lookup_delete_eq.
  - rewrite lookup_delete_ne by done. apply Hc.
Qed.

Lemma store_remove_certs name w :
  certs (self (store_remove name w).2) = delete name (certs (self w)).
Proof.
  unfold store_remove, try_except, del_cert. rewrite bind_eq. cbn [get_self].
  destruct (certs (self w) !! name) eqn:E; simpl; [done |].
  symmetry. by apply delete_id.
Qed.

Section Records.
Context `{OpenSSL}.

(** X15.  An issuance touches no record but the one of its name: after
    [create_ca] or [create_signed_pair], however it ends, every other name
    has the record it had, or still none, and the store directory of the
    object is the same. *)
Theorem issuance_keeps_other_records :
  (forall name cert_type bits alt_names years w,
     let w' := (create_ca name cert_type bits alt_names years w).2 in
     store_dir (self w') = store_dir (self w) /\
     forall n, n ≠ name -> certs (self w') !! n = certs (self w) !! n) /\
  (forall name ca_name cert_type bits years alt_names w,
     let w' := (create_signed_pair name ca_name cert_type bits years alt_names w).2 in
     store_dir (self w') = store_dir (self w) /\
     forall n, n ≠ name -> certs (self w') !! n = certs (self w) !! n).
Proof.
  split.
  - intros name cert_type bits alt_names years w w'.
    destruct (create_ca_registers name cert_type bits alt_names years (self w) w eq_refl)
      as [Hd Hc]. fold w' in Hd, Hc. split; [exact Hd |].
    intros n Hn. destruct Hc as [-> | ->]; [done | by rewrite lookup_insert_ne].
  - intros name ca_name cert_type bits years alt_names w w'.
    destruct (create_signed_pair_registers name ca_name cert_type bits years alt_names w)
      as [Hd Hc]. fold w' in Hd, Hc. split; [exact Hd |].
    intros n Hn. destruct Hc as [-> | (X & _ & ->)]; [done | by rewrite lookup_insert_ne].
Qed.

Lemma exec_anchored (c : command) (w : World) :
  anchored_command c -> anchored (certs (self w)) ->
  anchored (certs (self (exec c w).2)).
Proof.
  intros Hc Hw. destruct c as [n t b a y | n ca t b y a | n | r | n |]; simpl.
  - assert (Hk : keeps (registers n "" (self w)) (create_ca n t b a y ;;; ret tt))
      by (apply keeps_bind; [typeclasses eauto | apply create_ca_registers | keeps_split]).
    destruct (Hk w eq_refl) as [_ [-> | ->]]; [done |].
    apply anchored_insert; [done | apply ca_file_truthy].
  - rewrite bind_eq.
    pose proof (create_signed_pair_registers n ca t b y a w) as [_ Hreg].
    destruct (create_signed_pair n ca t b y a w) as [[r | e |] w1]; simpl in *;
      (destruct Hreg as [-> | (X & _ & ->)];
       [done | apply anchored_insert; [done | apply ca_file_truthy]]).
  - rewrite store_remove_certs. by apply anchored_delete.
  - by apply anchored_insert.
  - pose proof (store_get_quiet n w) as [Hs _]. rewrite bind_eq.
    destruct (store_get n w) as [[r | e |] w1]; simpl in *; by rewrite Hs.
  - by destruct (store_save_quiet w) as [-> _].
Qed.

(** X16.  A store in which every record names a CA file stays so under
    issuance, removal, lookup and saving, and under additions of records
    that name one: the empty CA file that stops the trust anchor from
    being handed on can come only from [store_add] or from a record file. *)
Theorem anchored_store_stays_anchored (cs : list command) (w : World) :
  Forall anchored_command cs ->
  anchored (certs (self w)) ->
  anchored (certs (self (run cs w))).
Proof.
  revert w. induction cs as [| c rest IH]; intros w Hcs Hw; simpl; [done |].
  apply Forall_cons in Hcs as [Hc Hrest].
  apply IH; [done |]. by apply exec_anchored.
Qed.

(** X17.  In a store in which every record names a CA file, a leaf that
    [create_signed_pair] registers has the CA file of the record of its
    CA. *)
Theorem trust_anchor_handed_on (name ca_name : string) (cert_type bits years : Z)
    (alt_names : string) (w : World) :
  anchored (certs (self w)) ->
  let w' := (create_signed_pair name ca_name cert_type bits years alt_names w).2 in
  certs (self w') = certs (self w) \/
  exists X r,
    certs (self w) !! ca_name = Some X /\
    certs (self w') = <[name := r]> (certs (self w)) /\
    ca_file r = ca_file X.
Proof.
  intros Hw w'.
  destruct (create_signed_pair_registers name ca_name cert_type bits years alt_names w)
    as [_ [Hc | (X & HX & Hc)]]; [by left |].
  right. exists X, (key_cert_pair_for_name (self w) name "" "" "" (ca_file X)).
  split_and!; try done.
  pose proof (ca_file_default (self w) name (ca_file X)) as Hd. cbv zeta in Hd.
  rewrite Hd. by rewrite (Hw ca_name X HX).
Qed.

End Records.

(** X16 and X17 at work: a CA, a leaf, the leaf removed and another leaf,
    in a new store. *)
Lemma anchored_store_stays_anchored_witness :
  let HO := plain_openssl in
  let cs := [CreateCA "root" TYPE_RSA 2048 "" 5;
             CreateSignedPair "svc" "root" TYPE_RSA 2048 5 "";
             StoreRemove "svc";
             CreateSignedPair "web" "root" TYPE_RSA 2048 5 ""] in
  anchored (certs (self fresh_world)) /\
  anchored (certs (self (run cs fresh_world))) /\
  dom (certs (self (run cs fresh_world))) = {[ "root"; "web" ]}.
Proof.
  intros HO cs.
  assert (H0 : anchored (certs (self fresh_world))).
  { intros n r Hn.
    change (certs (self fresh_world)) with (∅ : gmap string KeyCertPair) in Hn.
    by rewrite lookup_empty in Hn. }
  split; [exact H0 |]. split; [| vm_compute; reflexivity].
  apply anchored_store_stays_anchored; [| exact H0].
  repeat constructor.
Defined.

Lemma trust_anchor_handed_on_witness :
  let HO := plain_openssl in
  let w := (create_ca "root" TYPE_RSA 2048 "" 5 fresh_world).2 in
  let w' := (create_signed_pair "svc" "root" TYPE_RSA 2048 5 "" w).2 in
  anchored (certs (self w)) /\
  exists r, certs (self w') !! "svc" = Some r /\ ca_file r = "out/root/root.crt".
Proof.
  intros HO w w'.
  assert (Hroot : certs (self w)
                  = {[ "root" := mkKeyCertPair "root" "out/root" "out/root/root.key"
                                   "out/root/root.crt" "out/root/root.crt" ]})
    by (vm_compute; reflexivity).
  assert (Hw : anchored (certs (self w))).
  { intros n r Hn. rewrite Hroot in Hn.
    apply lookup_singleton_Some in Hn as [_ <-]. reflexivity. }
  split; [exact Hw |].
  destruct (trust_anchor_handed_on "svc" "root" TYPE_RSA 2048 5 "" w Hw)
    as [Hsame | (X & r & HX & Hc & Hca)].
  - exfalso. fold w' in Hsame.
    assert (Hd : dom (certs (self w')) = {[ "root"; "svc" ]}) by (vm_compute; reflexivity).
    assert (Hd' : dom (certs (self w)) = {[ "root" ]}) by (vm_compute; reflexivity).
    rewrite Hsame, Hd' in Hd.
    assert (Hin : "svc" ∈ ({[ "root" ]} : gset string)) by (rewrite Hd; set_solver).
    set_solver.
  - exists r. fold w' in Hc. split; [rewrite Hc; apply lookup_insert_eq |].
    rewrite Hca. rewrite Hroot, lookup_singleton_eq in HX. by injection HX as <-.
Defined.

(** * Issuance from end to end *)

(** A step that leaves the object alone since [w0], then [f], for a
    property [Q] that holds of every call that stops there. *)
Lemma step_quiet_result {A B} (m : M A) (f : A -> M B) (w0 w : World)
    (Q : result B * World -> Prop) :
  keeps quiet m -> quiet w0 w ->
  (forall (r : result B) w1, quiet w0 w1 -> is_val r = false -> Q (r, w1)) ->
  (forall a w1, quiet w0 w1 -> Q (f a w1)) ->
  Q (bind m f w).
Proof.
  intros Hm Hw Hstop Hf. specialize (Hm w).
  assert (Hw1 : quiet w0 (m w).2) by (etransitivity; eauto).
  apply bind_elim; intros; match goal with E : m w = _ |- _ => rewrite E in Hw1 end;
    eauto.
Qed.

(** A call of [write_key_cert_pair] that returns no record has left the
    object alone. *)
Lemma write_key_cert_pair_none name key cert signing_cert w w' :
  write_key_cert_pair name key cert signing_cert w = (Val None, w') ->
  self w' = self w.
Proof.
  set (Q := fun out : result (option KeyCertPair) * World =>
    match out.1 with
    | Val (Some _) => True
    | _ => self out.2 = self w
    end).
  assert (Hbody : forall body_out,
    body_out =
      (s <- get_self ;;
       let cert_info := key_cert_pair_for_name s name "" "" "" signing_cert in
       makedirs (dir_name cert_info) (oct 7 5 5) ;;;
       open_w (key_file cert_info) ;;;
       fh_write (key_file cert_info) (PemKey key) ;;;
       open_w (cert_file cert_info) ;;;
       fh_write (cert_file cert_info) (PemCert cert) ;;;
       chmod (key_file cert_info) (oct 6 0 0) ;;;
       chmod (cert_file cert_info) (oct 6 4 4) ;;;
       store_add cert_info ;;;
       ret (Some cert_info)) w -> Q body_out).
  { intros body_out ->.
    assert (Hstop : forall (r : result (option KeyCertPair)) w1,
              quiet w w1 -> is_val r = false -> Q (r, w1)).
    { intros r w1 [Hs _] Hr. unfold Q. simpl. by destruct r as [[] | |]. }
    rewrite bind_eq. cbn [get_self].
    do 7 (apply (step_quiet_result _ _ w); [eauto with certipy | first [reflexivity | done] |
            exact Hstop | intros [] ? ?]).
    rewrite bind_eq. unfold store_add, set_cert. rewrite bind_eq.
    cbn [get_self put_self ret]. exact I. }
  unfold write_key_cert_pair. intros E.
  apply try_except_val_inv in E as [E | (e & w1 & k & E & Hk & Ek)].
  - specialize (Hbody _ (eq_sym E)). exact Hbody.
  - specialize (Hbody _ (eq_sym E)). unfold Q in Hbody. simpl in Hbody.
    destruct e; try discriminate Hk. injection Hk as <-.
    rewrite bind_eq in Ek. simpl in Ek. injection Ek as <-. exact Hbody.
Qed.

Section EndToEnd.
Context `{OpenSSL}.


(** The end of both issuances: the files are written and the record of
    the name is returned. *)
Lemma write_then_get name key cert ca w w' r :
  (write_key_cert_pair name key cert ca ;;; store_get name) w = (Val (Some r), w') ->
  certs (self w) !! name = None ->
  r = key_cert_pair_for_name (self w) name "" "" "" ca /\
  certs (self w') = <[name := r]> (certs (self w)) /\
  serial (self w') = serial (self w) /\
  fs w' !! key_file r = Some (File (oct 6 0 0) (PemKey key)) /\
  fs w' !! cert_file r = Some (File (oct 6 4 4) (PemCert cert)) /\
  issued w' = issued w.
Proof.
  intros E Hnew. apply bind_val_inv in E as (x & w1 & Ew & Eg).
  apply store_get_val_inv in Eg as [-> Hr].
  pose proof (write_key_cert_pair_steady name key cert ca w) as Hst.
  rewrite Ew in Hst. unfold steady, view in Hst. injection Hst as _ Hi.
  destruct x as [ci |].
  - apply write_key_cert_pair_val in Ew as (-> & Hc & Hs & Hk & Hcf & _).
    rewrite Hc, lookup_insert_eq in Hr. injection Hr as <-. by split_and!.
  - apply write_key_cert_pair_none in Ew. rewrite Ew in Hr. congruence.
Qed.

End EndToEnd.


Lemma keeps_at (R : relation World) {A} (m : M A) w r w1 :
  keeps R m -> m w = (r, w1) -> R w w1.
Proof. intros Hm E. specialize (Hm w). by rewrite E in Hm. Qed.

Section Done.
Context `{OpenSSL}.

(** X19.  When [create_ca] returns a record for a name that was not in the
    store, everything was done: the record has the default paths and is in
    the dictionary, one certificate was signed and the serial moved by one,
    the key file holds the new key with mode [0o600] and the certificate
    file holds that certificate with mode [0o644]. *)
Theorem create_ca_done (name : string) (cert_type bits : Z) (alt_names : string)
    (years : Z) (w w' : World) (r : KeyCertPair) :
  create_ca name cert_type bits alt_names years w = (Val (Some r), w') ->
  certs (self w) !! name = None ->
  r = key_cert_pair_for_name (self w) name "" "" "" "" /\
  certs (self w') = <[name := r]> (certs (self w)) /\
  serial (self w') = serial (self w) + 1 /\
  exists c,
    issued w' = issued w ++ [c] /\
    serial_number c = serial (self w) /\
    fs w' !! key_file r
      = Some (File (oct 6 0 0) (PemKey (mkPKey cert_type bits (next_key w) false))) /\
    fs w' !! cert_file r = Some (File (oct 6 4 4) (PemCert c)).
Proof.
  unfold create_ca. intros E Hnew.
  apply bind_val_inv in E as (cakey & w1 & Ek & E).
  pose proof (keeps_at calm _ _ _ _ (create_key_pair_calm _ _) Ek) as H1.
  apply create_key_pair_val in Ek as ->.
  apply bind_val_inv in E as (req & w2 & Er & E).
  pose proof (keeps_at calm _ _ _ _ (create_request_calm _ _ _) Er) as H2.
  apply bind_val_inv in E as (e1 & w3 & E1 & E). apply lift_world in E1 as ->.
  apply bind_val_inv in E as (e2 & w4 & E2 & E). apply lift_world in E2 as ->.
  apply bind_val_inv in E as (e3 & w5 & E3 & E). apply lift_world in E3 as ->.
  apply bind_val_inv in E as (exts & w6 & Ea & E).
  pose proof (keeps_at calm _ _ _ _ (append_alt_names_calm _ _) Ea) as H6.
  assert (Hc6 : calm w w6) by (etransitivity; [exact H1 | etransitivity; eauto]).
  destruct Hc6 as (Hs6 & Hf6 & _ & Hi6 & _).
  apply bind_val_inv in E as (cacert & w7 & Es & E).
  apply sign_val_spec in Es as (-> & Hser & _).
  apply write_then_get in E; cycle 1.
  { simpl. by rewrite Hs6. }
  destruct E as (Hr & Hc & Hs & Hk & Hcf & Hi).
  cbn [self signed_world set_serial certs serial issued] in *.
  rewrite Hs6 in *. rewrite Hi6 in Hi.
  assert (Hr' : r = key_cert_pair_for_name (self w) name "" "" "" "")
    by (rewrite Hr; by apply key_cert_pair_for_name_store_dir).
  clear Hr.
  split; [exact Hr' |]. split; [exact Hc |]. split; [exact Hs |].
  exists cacert. split; [exact Hi |]. split; [exact Hser |].
  split; [exact Hk | exact Hcf].
Qed.

(** X20.  When [create_signed_pair] returns a record for a name that was
    not in the store, everything was done: the CA was in the store, the
    record has the default paths and the CA file the code derives from the
    one of the CA, one certificate was signed and the serial moved by one,
    the key file holds the new key with mode [0o600] and the certificate
    file holds that certificate with mode [0o644]. *)
Theorem create_signed_pair_done (name ca_name : string) (cert_type bits years : Z)
    (alt_names : string) (w w' : World) (r : KeyCertPair) :
  create_signed_pair name ca_name cert_type bits years alt_names w = (Val (Some r), w') ->
  certs (self w) !! name = None ->
  exists X c,
    certs (self w) !! ca_name = Some X /\
    r = key_cert_pair_for_name (self w) name "" "" "" (ca_file X) /\
    certs (self w') = <[name := r]> (certs (self w)) /\
    serial (self w') = serial (self w) + 1 /\
    issued w' = issued w ++ [c] /\
    serial_number c = serial (self w) /\
    fs w' !! key_file r
      = Some (File (oct 6 0 0) (PemKey (mkPKey cert_type bits (next_key w) false))) /\
    fs w' !! cert_file r = Some (File (oct 6 4 4) (PemCert c)).
Proof.
  unfold create_signed_pair. intros E Hnew.
  apply bind_val_inv in E as (key & w1 & Ek & E).
  pose proof (keeps_at calm _ _ _ _ (create_key_pair_calm _ _) Ek) as H1.
  apply create_key_pair_val in Ek as ->.
  apply bind_val_inv in E as (req & w2 & Er & E).
  pose proof (keeps_at calm _ _ _ _ (create_request_calm _ _ _) Er) as H2.
  apply bind_val_inv in E as (e1 & w3 & E1 & E). apply lift_world in E1 as ->.
  apply bind_val_inv in E as (exts & w4 & Ea & E).
  pose proof (keeps_at calm _ _ _ _ (append_alt_names_calm _ _) Ea) as H4.
  assert (Hc4 : calm w w4) by (etransitivity; [exact H1 | etransitivity; eauto]).
  destruct Hc4 as (Hs4 & Hf4 & _ & Hi4 & _).
  apply bind_val_inv in E as (pair & w5 & El & E).
  destruct pair as [[cakey cacert] |]; [| discriminate E].
  apply load_key_cert_pair_val in El as (-> & X & mk & mc & HX & _).
  apply bind_val_inv in E as (cert & w6 & Es & E).
  apply sign_val_spec in Es as (-> & Hser & _).
  apply bind_val_inv in E as (ca_info & w7 & Eg & E).
  destruct ca_info as [ca_info |]; [| discriminate E].
  apply store_get_val_inv in Eg as [-> Hca].
  cbn [self signed_world set_serial certs] in Hca. rewrite HX in Hca.
  injection Hca as <-.
  apply write_then_get in E; cycle 1.
  { simpl. by rewrite Hs4. }
  destruct E as (Hr & Hc & Hs & Hk & Hcf & Hi).
  cbn [self signed_world set_serial certs serial issued] in *.
  rewrite Hs4 in *. rewrite Hi4 in Hi.
  assert (Hr' : r = key_cert_pair_for_name (self w) name "" "" "" (ca_file X))
    by (rewrite Hr; by apply key_cert_pair_for_name_store_dir).
  clear Hr.
  exists X, cert. split; [exact HX |]. split; [exact Hr' |]. split; [exact Hc |].
  split; [exact Hs |]. split; [exact Hi |]. split; [exact Hser |].
  split; [exact Hk | exact Hcf].
Qed.

End Done.

(** X19 at work: the CA ["root"] in a new store. *)
Lemma create_ca_done_witness :
  let HO := plain_openssl in
  let out := create_ca "root" TYPE_RSA 2048 "" 5 fresh_world in
  exists r c,
    out = (Val (Some r), out.2) /\
    certs (self fresh_world) !! "root" = None /\
    serial (self out.2) = 1 /\
    fs out.2 !! "out/root/root.crt" = Some (File (oct 6 4 4) (PemCert c)) /\
    issued out.2 = [c].
Proof.
  intros HO out. 
  assert (E : out = (Val (Some (key_cert_pair_for_name (self fresh_world) "root" "" "" "" "")),
                     out.2)) by (vm_compute; reflexivity).
  destruct (create_ca_done "root" TYPE_RSA 2048 "" 5 fresh_world out.2 _ E eq_refl)
    as (_ & _ & Hs & c & Hi & _ & _ & Hcf).
  eexists _, c. split; [exact E |]. split; [reflexivity |].
  split; [exact Hs |]. split; [exact Hcf | exact Hi].
Defined.

(** X20 at work: the leaf ["svc"] of the CA ["root"]. *)
Lemma create_signed_pair_done_witness :
  let HO := plain_openssl in
  let w := (create_ca "root" TYPE_RSA 2048 "" 5 fresh_world).2 in
  let out := create_signed_pair "svc" "root" TYPE_RSA 2048 5 "" w in
  exists r c,
    out = (Val (Some r), out.2) /\
    certs (self w) !! "svc" = None /\
    serial (self out.2) = 2 /\
    fs out.2 !! "out/svc/svc.crt" = Some (File (oct 6 4 4) (PemCert c)) /\
    fs out.2 !! "out/svc/svc.key"
      = Some (File (oct 6 0 0) (PemKey (mkPKey TYPE_RSA 2048 1 false))).
Proof.
  intros HO w out.
  assert (E : out = (Val (Some (key_cert_pair_for_name (self w) "svc" "" "" ""
                                  "out/root/root.crt")), out.2))
    by (vm_compute; reflexivity).
  assert (Hn : certs (self w) !! "svc" = None) by (vm_compute; reflexivity).
  destruct (create_signed_pair_done "svc" "root" TYPE_RSA 2048 5 "" w out.2 _ E Hn)
    as (X & c & _ & _ & _ & Hs & _ & _ & Hk & Hcf).
  eexists _, c. split; [exact E |]. split; [exact Hn |].
  split; [rewrite Hs; vm_compute; reflexivity |].
  split; [exact Hcf | exact Hk].
Defined.
